(** * Time-value-of-money functions of [business.py]: [rates] and [solve_r]

    A shallow embedding of the rate converter [rates], of its helper
    [get_rType] and of the annuity rate solver [solve_r], with the
    properties their specification states.

    Numbers.  Python floats are modelled as real numbers: the binary
    rounding of each arithmetic operation and overflow are outside the
    model, the decimal rounding [round(x, 10)] is inside it.  Python's
    exceptions are values of [pyerr]; a computation that raises returns
    [Raise e].  The source is Python 3: [/] is true division and a
    negative float raised to a fractional power is a complex number.

    Objects.  A Python list is a mutable object: [solve_r] receives a
    reference to the caller's list.  Lists live in a [heap] and are named
    by a location; [solve_r] is a state-passing function over the heap. *)

From Stdlib Require Import Reals Lra Lia ZArith List String Ascii Bool.
From Stdlib Require Import DecimalString.
Import ListNotations.

Open Scope R_scope.

(** ** Exceptions and the error monad *)

Inductive pyerr : Set :=
| ZeroDivisionError
| ValueError
| IndexError
| KeyError
| TypeError
| NoConvergence.

Inductive result (A : Type) : Type :=
| Ok (a : A)
| Raise (e : pyerr).

Arguments Ok {A} a.
Arguments Raise {A} e.

Definition rbind {A B : Type} (c : result A) (k : A -> result B) : result B :=
  match c with
  | Ok a => k a
  | Raise e => Raise e
  end.

Declare Scope result_scope.
Delimit Scope result_scope with result.
Notation "x <- c ;; k" := (rbind c (fun x => k))
  (at level 61, c at next level, right associativity) : result_scope.

(** ** Optional arguments

    Every optional parameter of the source defaults to [False].  [PyFalse]
    is that default; [Given a] is a value the caller supplied. *)

Inductive pyopt (A : Type) : Type :=
| PyFalse
| Given (a : A).

Arguments PyFalse {A}.
Arguments Given {A} a.

(** [x == False] on a number: [False] itself and every zero. *)
Definition num_eq_False (a : pyopt R) : bool :=
  match a with
  | PyFalse => true
  | Given x => if Req_dec_T x 0 then true else false
  end.

(** The numeric value of an argument ([False] counts as 0 in arithmetic). *)
Definition num_val (a : pyopt R) : R :=
  match a with
  | PyFalse => 0
  | Given x => x
  end.

Definition int_eq_False (a : pyopt Z) : bool :=
  match a with
  | PyFalse => true
  | Given z => (z =? 0)%Z
  end.

Definition int_val (a : pyopt Z) : Z :=
  match a with
  | PyFalse => 0%Z
  | Given z => z
  end.

(** ** Arithmetic primitives *)

(** [x / y] *)
Definition pydiv (x y : R) : result R :=
  if Req_dec_T y 0 then Raise ZeroDivisionError else Ok (x / y).

(** [math.log(x)] *)
Definition pylog (x : R) : result R :=
  if Rlt_dec 0 x then Ok (ln x) else Raise ValueError.

Definition is_integer (y : R) : bool :=
  if Req_dec_T y (IZR (Int_part y)) then true else false.

(** [x ** y] on floats.  A negative base with a fractional exponent gives a
    complex number in Python 3; both call sites hand that number to
    [rates], whose first [math.exp] rejects it with a [TypeError], and
    nothing else happens in between, so the error is raised here. *)
Definition pypow (x y : R) : result R :=
  if Rlt_dec 0 x then Ok (Rpower x y)
  else if Req_dec_T x 0 then
    if Rlt_dec 0 y then Ok 0
    else if Req_dec_T y 0 then Ok 1
    else Raise ZeroDivisionError
  else if is_integer y then Ok (powerRZ x (Int_part y))
  else Raise TypeError.

(** Round half to even, to the nearest integer. *)
Definition round_half_even (x : R) : Z :=
  let n := Int_part x in
  let f := x - IZR n in
  if Rlt_dec f (1 / 2) then n
  else if Rlt_dec (1 / 2) f then (n + 1)%Z
  else if Z.even n then n else (n + 1)%Z.

(** [round(x, ndigits)] *)
Definition pyround (x : R) (ndigits : nat) : R :=
  IZR (round_half_even (x * 10 ^ ndigits)) / 10 ^ ndigits.

(** ** Rate-kind tags: [get_rType] *)

(** What the caller passes as [r_is] or [get]: a numeric code or a string. *)
Inductive tagval : Set :=
| TagInt (z : Z)
| TagStr (s : string).

(** Truth value of an optional tag, as [if r_is:] tests it. *)
Definition tag_truthy (a : pyopt tagval) : bool :=
  match a with
  | PyFalse => false
  | Given (TagInt z) => negb (z =? 0)%Z
  | Given (TagStr s) => negb (s =? "")%string
  end.

(** [str(x)] *)
Definition pystr (x : tagval) : string :=
  match x with
  | TagInt z => NilZero.string_of_int (Z.to_int z)
  | TagStr s => s
  end.

(** [c.lower()] on an ASCII character. *)
Definition lower_ascii (c : ascii) : ascii :=
  let n := nat_of_ascii c in
  if ((65 <=? n) && (n <=? 90))%nat then ascii_of_nat (n + 32) else c.

Fixpoint lower (s : string) : string :=
  match s with
  | EmptyString => EmptyString
  | String c s' => String (lower_ascii c) (lower s')
  end.

(** [x[0]] *)
Definition str_head (x : string) : result string :=
  match x with
  | EmptyString => Raise IndexError
  | String c _ => Ok (String c EmptyString)
  end.

Definition get_rType (x : string) : result string :=
  (if (x =? "1")%string then Ok "i"%string
   else
     x0 <- str_head x ;;
     let c := lower x0 in
     if (c =? "i")%string then Ok "i"%string
     else if (x =? "4")%string || (lower (substring 0 2 x) =? "de")%string
             || (c =? "c")%string || (c =? "f")%string
     then Ok "delta"%string
     else if (x =? "2")%string || (c =? "d")%string then Ok "d"%string
     else if (x =? "3")%string || (c =? "v")%string then Ok "v"%string
     else Ok x)%result.

(** ** The rate bundle and [rates] *)

(** The dictionary [{'i':i,'d':d,'v':v,'delta':delta}]. *)
Record bundle : Type := mkBundle {
  b_i : R;
  b_d : R;
  b_v : R;
  b_delta : R
}.

(** [answer[key]] *)
Definition bundle_get (b : bundle) (key : string) : result R :=
  if (key =? "i")%string then Ok (b_i b)
  else if (key =? "d")%string then Ok (b_d b)
  else if (key =? "v")%string then Ok (b_v b)
  else if (key =? "delta")%string then Ok (b_delta b)
  else Raise KeyError.

(** What [rates] and [solve_r] return: the dictionary or one of its values. *)
Inductive pyret : Type :=
| Bundle (b : bundle)
| Scalar (x : R).

Definition interest (r : R) : result bundle :=
  (let i := r in
   d <- pydiv i (1 + i) ;;
   let v := 1 - d in
   let delta := exp i - 1 in
   Ok (mkBundle i d v delta))%result.

Definition discount (r : R) : result bundle :=
  (let d := r in
   i <- pydiv d (1 - d) ;;
   let v := 1 - d in
   let delta := exp i - 1 in
   Ok (mkBundle i d v delta))%result.

Definition getV (r : R) : result bundle :=
  (let v := r in
   let d := 1 - v in
   w <- pydiv 1 v ;;
   let i := w - 1 in
   let delta := exp i - 1 in
   Ok (mkBundle i d v delta))%result.

Definition delta (r : R) : result bundle :=
  (let delta := r in
   i <- pylog (1 + delta) ;;
   d <- pydiv i (1 + i) ;;
   let v := 1 - d in
   Ok (mkBundle i d v delta))%result.

Definition roundValues (answer : bundle) : bundle :=
  mkBundle (pyround (b_i answer) 10) (pyround (b_d answer) 10)
           (pyround (b_v answer) 10) (pyround (b_delta answer) 10).

(** Truth value of an optional number, as [if q_per_t:] tests it. *)
Definition num_truthy (a : pyopt R) : bool := negb (num_eq_False a).

(** The body of [rates], with its recursive call [rates(r=i)] as [self]. *)
Definition rates_body (self : R -> result pyret)
    (r : R) (r_is get : pyopt tagval) (q_per_t : pyopt R) : result pyret :=
  (r_is <- (if tag_truthy r_is
            then match r_is with
                 | Given x => get_rType (pystr x)
                 | PyFalse => Ok "i"%string
                 end
            else Ok "i"%string) ;;
   answer <- (if (r_is =? "i")%string then interest r
              else if (r_is =? "d")%string then discount r
              else if (r_is =? "v")%string then getV r
              else delta r) ;;
   let answer := roundValues answer in
   answer <- (if num_truthy q_per_t
              then
                e <- pydiv 1 (num_val q_per_t) ;;
                p <- pypow (1 + b_i answer) e ;;
                let i := p - 1 in
                self i
              else Ok (Bundle answer)) ;;
   if tag_truthy get
   then match get with
        | Given x =>
            get <- get_rType (pystr x) ;;
            match answer with
            | Bundle b => x <- bundle_get b get ;; Ok (Scalar x)
            | Scalar _ => Raise TypeError
            end
        | PyFalse => Ok answer
        end
   else Ok answer)%result.

(** The recursive call passes neither [q_per_t] nor [get]: it never
    recurses again, so the recursion is two levels deep at most. *)
Definition rates_inner (r : R) : result pyret :=
  rates_body (fun _ => Raise TypeError) r PyFalse PyFalse PyFalse.

Definition rates (r : R) (r_is get : pyopt tagval) (q_per_t : pyopt R)
  : result pyret :=
  rates_body rates_inner r r_is get q_per_t.

(** ** The heap of list objects

    A location is an index into the heap.  Locations come from the caller
    (whose lists are in the heap before the call) or from [new_list]; no
    other location is ever read. *)

Definition loc : Set := nat.
Definition heap : Type := list (list R).

(** Computations that read and write the heap and may raise.  An exception
    keeps the writes done before it. *)
Definition M (A : Type) : Type := heap -> result A * heap.

Definition ret {A : Type} (a : A) : M A := fun h => (Ok a, h).

Definition bind {A B : Type} (c : M A) (k : A -> M B) : M B :=
  fun h =>
    match c h with
    | (Ok a, h') => k a h'
    | (Raise e, h') => (Raise e, h')
    end.

Definition lift {A : Type} (c : result A) : M A := fun h => (c, h).

Declare Scope heap_scope.
Delimit Scope heap_scope with heap.
Notation "x <- c ;; k" := (bind c (fun x => k))
  (at level 61, c at next level, right associativity) : heap_scope.

Fixpoint list_set {A : Type} (l : list A) (n : nat) (a : A) : list A :=
  match l, n with
  | [], _ => []
  | _ :: l', O => a :: l'
  | x :: l', S n' => x :: list_set l' n' a
  end.

(** A fresh list object. *)
Definition new_list (l : list R) : M loc :=
  fun h => (Ok (List.length h), h ++ [l]).

(** The current content of a list object. *)
Definition read (p : loc) : M (list R) :=
  fun h => (Ok (nth p h []), h).

(** In-place update of a list object. *)
Definition write (p : loc) (l : list R) : M unit :=
  fun h => (Ok tt, list_set h p l).

(** ** List primitives *)

(** [l * n] for an integer [n]: empty when [n <= 0]. *)
Definition list_mul (l : list R) (n : Z) : list R :=
  List.concat (repeat l (Z.to_nat n)).

(** [l[0]] *)
Definition list_first (l : list R) : result R :=
  match l with
  | [] => Raise IndexError
  | x :: _ => Ok x
  end.

(** [l[-1]] *)
Definition list_last (l : list R) : result R :=
  match l with
  | [] => Raise IndexError
  | x :: l' => Ok (last l' x)
  end.

Definition Rmaxb (x y : R) : R := if Rlt_dec x y then y else x.
Definition Rminb (x y : R) : R := if Rlt_dec y x then y else x.

(** [max(l)] *)
Definition pymax (l : list R) : result R :=
  match l with
  | [] => Raise ValueError
  | x :: l' => Ok (fold_left Rmaxb l' x)
  end.

(** [min(l)] *)
Definition pymin (l : list R) : result R :=
  match l with
  | [] => Raise ValueError
  | x :: l' => Ok (fold_left Rminb l' x)
  end.

(** ** [solve_r] *)

(** The payments argument [q]: a number or a reference to a list. *)
Inductive pyq : Set :=
| QNum (x : R)
| QList (p : loc).

(** [q == False]: a list is never equal to [False]. *)
Definition q_eq_False (q : pyopt pyq) : bool :=
  match q with
  | PyFalse => true
  | Given (QNum x) => if Req_dec_T x 0 then true else false
  | Given (QList _) => false
  end.

(** A root as [mpmath] returns it: real ([mpf]) or complex ([mpc]). *)
Inductive pyroot : Set :=
| mpf (x : R)
| mpc (re im : R).

(** The loop that keeps the real roots, in order. *)
Fixpoint real_roots (roots : list pyroot) : list R :=
  match roots with
  | [] => []
  | mpf x :: roots' => x :: real_roots roots'
  | mpc _ _ :: roots' => real_roots roots'
  end.

Section SolveR.

(** [mpmath.polyroots]: an external root finder, from the coefficients
    (highest degree first) to the roots, or an exception. *)
Variable polyroots : list R -> result (list pyroot).

(** Lines 231-243: the list of payments.  Returns the list object that the
    local name [q] is bound to at the end. *)
Definition payments (pv : pyopt R) (q : pyq) (t : pyopt Z) (fv : pyopt R)
    (annuity_due : bool) : M loc :=
  (q <- match q with
        | QList p => ret p
        | QNum x => new_list [x]
        end ;;
   _ <- (if negb (int_eq_False t)
         then l <- read q ;; write q (list_mul l (int_val t))
         else ret tt) ;;
   q <- (if negb (num_eq_False pv) && annuity_due
         then
           l <- read q ;;
           x <- lift (list_first l) ;;
           _ <- write q (list_set l 0 (x - num_val pv)) ;;
           ret q
         else if negb (num_eq_False pv)
         then l <- read q ;; new_list ((- num_val pv) :: l)
         else ret q) ;;
   _ <- (if negb (num_eq_False fv) && negb annuity_due
         then
           l <- read q ;;
           x <- lift (list_last l) ;;
           write q (list_set l (List.length l - 1) (x - num_val fv))
         else if negb (num_eq_False fv) && annuity_due
         then l <- read q ;; write q (l ++ [- num_val fv])
         else ret tt) ;;
   ret q)%heap.

(** Lines 245-262: from the list of payments to the periodic rate. *)
Definition root_rate (q : loc) : M R :=
  (l <- read q ;;
   roots <- lift (polyroots l) ;;
   let real := real_roots roots in
   let real := match real with [] => [1] | _ :: _ => real end in
   r <- lift (pymax real) ;;
   let r := r - 1 in
   l <- read q ;;
   mx <- lift (pymax l) ;;
   if Rlt_dec mx 0 then ret 0
   else
     mn <- lift (pymin l) ;;
     if Rlt_dec 0 mn then ret 0 else ret r)%heap.

(** Lines 221-262: the periodic rate [r], before [rates] converts it. *)
Definition solve_r_rate (pv : pyopt R) (q : pyopt pyq) (t : pyopt Z)
    (fv : pyopt R) (annuity_due : bool) : M R :=
  if q_eq_False q
  then
    let pv := if num_eq_False pv then 1 else num_val pv in
    let fv := if num_eq_False fv then 1 else num_val fv in
    lift (x <- pydiv fv pv ;;
          e <- pydiv 1 (IZR (int_val t)) ;;
          p <- pypow x e ;;
          Ok (p - 1))%result
  else
    match q with
    | Given q => (p <- payments pv q t fv annuity_due ;; root_rate p)%heap
    | PyFalse => lift (Raise TypeError)
    end.

Definition solve_r (pv : pyopt R) (q : pyopt pyq) (t : pyopt Z)
    (fv : pyopt R) (annuity_due : bool) (get : pyopt tagval)
    (q_per_t : pyopt R) : M pyret :=
  (r <- solve_r_rate pv q t fv annuity_due ;;
   q_per_t <- (if negb (num_eq_False q_per_t)
               then x <- lift (pydiv 1 (num_val q_per_t)) ;; ret (Given x)
               else ret q_per_t) ;;
   lift (rates r PyFalse get q_per_t))%heap.

End SolveR.

(** A root finder for polynomials of degree at most one, where the root is
    known in closed form; used to run [solve_r] on concrete schedules.
    [mpmath.polyroots] rejects the empty and the zero polynomial with a
    [ValueError] and divides by the leading coefficient. *)
Definition polyroots_linear (coeffs : list R) : result (list pyroot) :=
  match coeffs with
  | [] => Raise ValueError
  | [c] => if Req_dec_T c 0 then Raise ValueError else Ok []
  | [a; b] => (x <- pydiv (- b) a ;; Ok [mpf x])%result
  | _ => Raise NoConvergence
  end.

(** ** [pv], [fv], [solve_t] and [solve_q]

    The four callers of [rates].  They take the rate kind [r_is] through
    [get_rType] themselves and hand the result to [rates], which takes it
    through [get_rType] again. *)

(** [round(x, ndigits)] for an integer [ndigits] of either sign. *)
Definition pyround_to (x : R) (ndigits : Z) : R :=
  IZR (round_half_even (x * powerRZ 10 ndigits)) / powerRZ 10 ndigits.

(** [sum(l)] *)
Definition pysum (l : list R) : R := fold_left Rplus l 0.

(** The first lines of each caller: [r_is] as a canonical string. *)
Definition r_is_or_default (r_is : pyopt tagval) : result string :=
  if tag_truthy r_is
  then match r_is with
       | Given x => get_rType (pystr x)
       | PyFalse => Ok "i"%string
       end
  else Ok "i"%string.

(** [rates] called without [get] returns the dictionary; subscripting a
    number would be a [TypeError]. *)
Definition as_dict (a : pyret) : result bundle :=
  match a with
  | Bundle b => Ok b
  | Scalar _ => Raise TypeError
  end.

(** [iRates = rates(r=r,r_is=r_is,q_per_t=q_per_t)] when [q_per_t] is true,
    [iRates = rates(r=r,r_is=r_is)] otherwise. *)
Definition rates_per_period (r : R) (r_is : string) (q_per_t : pyopt R)
  : result bundle :=
  (if num_truthy q_per_t
   then a <- rates r (Given (TagStr r_is)) PyFalse q_per_t ;; as_dict a
   else a <- rates r (Given (TagStr r_is)) PyFalse PyFalse ;; as_dict a)%result.

(** [precision], after [if precision == False: precision = default] and
    [precision = min(precision,16)]. *)
Definition precision_or (default : Z) (precision : pyopt Z) : Z :=
  Z.min (if int_eq_False precision then default else int_val precision) 16.

(** The payment loop of [pv]: each payment discounted by [v**t], [t]
    counting up. *)
Fixpoint pv_loop (v : R) (q pmts : list R) (t : Z) : result (list R * Z) :=
  match q with
  | [] => Ok (pmts, t)
  | payment :: q' =>
      (p <- pypow v (IZR t) ;;
       let pv_pmt := payment * p in
       pv_loop v q' (pmts ++ [pv_pmt]) (t + 1))%result
  end.

Definition pv (r : R) (t : pyopt R) (r_is : pyopt tagval) (q : pyopt pyq)
    (fv : pyopt R) (q_per_t : pyopt R) (annuity_due : bool)
    (cash_today : pyopt R) (precision : pyopt Z) : M R :=
  (r_is <- lift (r_is_or_default r_is) ;;
   let t := if num_eq_False t then 1 else num_val t in
   iRates <- lift (rates_per_period r r_is q_per_t) ;;
   let t := if num_truthy q_per_t then t * num_val q_per_t else t in
   let unit_value := num_eq_False fv && q_eq_False q in
   let fv := if unit_value then 1 else num_val fv in
   let precision := if unit_value then Given 16%Z else precision in
   let q := match q with
            | Given q' => if q_eq_False q then QNum 0 else q'
            | PyFalse => QNum 0
            end in
   let cash_today := num_val cash_today in
   pt <- match q with
         | QList p =>
             l <- read p ;;
             let t := if annuity_due then 0%Z else 1%Z in
             st <- lift (pv_loop (b_v iRates) l [] t) ;;
             let presVal := pysum (fst st) in
             let t := (snd st - 1)%Z in
             ret (presVal, IZR t)
         | QNum q =>
             p <- lift (pypow (b_v iRates) t) ;;
             presVal <- lift (if annuity_due
                              then pydiv (q * (1 - p)) (b_d iRates)
                              else pydiv (q * (1 - p)) (b_i iRates)) ;;
             ret (presVal, t)
         end ;;
   let presVal := fst pt in
   let t := snd pt in
   p <- lift (pypow (b_v iRates) t) ;;
   let presVal := presVal + fv * p in
   let presVal := presVal + cash_today in
   ret (pyround_to presVal (precision_or 2 precision)))%heap.

(** The payment loop of [fv], over the reversed list: each payment
    accumulated by [(1 + i)**t_list]. *)
Fixpoint fv_loop (growth : R) (q pmts : list R) (t_list : Z)
  : result (list R) :=
  match q with
  | [] => Ok pmts
  | i :: q' =>
      (p <- pypow growth (IZR t_list) ;;
       let pmt := i * p in
       fv_loop growth q' (pmts ++ [pmt]) (t_list + 1))%result
  end.

Definition fv (r : R) (t : pyopt R) (r_is : pyopt tagval) (q : pyopt pyq)
    (pv : pyopt R) (q_per_t : pyopt R) (annuity_due : bool)
    (future_cash : pyopt R) (precision : pyopt Z) : M R :=
  (r_is <- lift (r_is_or_default r_is) ;;
   iRates <- lift (rates_per_period r r_is q_per_t) ;;
   let t := if num_truthy q_per_t
            then num_val t * num_val q_per_t else num_val t in
   let unit_value := num_eq_False pv && q_eq_False q in
   let pv := if unit_value then 1 else num_val pv in
   let precision := if unit_value then Given 16%Z else precision in
   let q := match q with
            | Given q' => if q_eq_False q then QNum 0 else q'
            | PyFalse => QNum 0
            end in
   let future_cash := num_val future_cash in
   futVal <- match q with
             | QList p =>
                 l <- read p ;;
                 _ <- write p (rev l) ;;
                 let t_list := if annuity_due then 1%Z else 0%Z in
                 l <- read p ;;
                 pmts <- lift (fv_loop (1 + b_i iRates) l [] t_list) ;;
                 l <- read p ;;
                 _ <- write p (rev l) ;;
                 ret (pysum pmts)
             | QNum q =>
                 p <- lift (pypow (1 + b_i iRates) t) ;;
                 lift (if annuity_due
                       then pydiv (q * (p - 1)) (b_d iRates)
                       else pydiv (q * (p - 1)) (b_i iRates))
             end ;;
   p <- lift (pypow (1 + b_i iRates) t) ;;
   let futVal := futVal + pv * p in
   let futVal := futVal + future_cash in
   ret (pyround_to futVal (precision_or 2 precision)))%heap.

(** [solve_t]; the payment [q] is a number here. *)
Definition solve_t (r : R) (pv : pyopt R) (r_is : pyopt tagval)
    (q : pyopt R) (q_per_t : pyopt R) (fv : pyopt R) (annuity_due : bool)
    (precision : pyopt Z) : result R :=
  (r_is <- r_is_or_default r_is ;;
   iRates <- rates_per_period r r_is q_per_t ;;
   denominator <- pylog (1 + b_i iRates) ;;
   let pv := if num_eq_False pv then 1 else num_val pv in
   numerator <-
     (if (num_eq_False q && num_eq_False fv)
         || (if Req_dec_T pv (num_val fv) then true else false)
      then Ok denominator
      else if num_eq_False q && negb (num_eq_False fv)
      then x <- pydiv (num_val fv) pv ;; pylog x
      else if negb (num_eq_False q) && num_eq_False fv && negb annuity_due
      then
        x <- pydiv (b_i iRates * pv) (num_val q) ;;
        l <- pylog (1 - x) ;;
        Ok (- l)
      else if negb (num_eq_False q) && num_eq_False fv && annuity_due
      then
        x <- pydiv (b_d iRates * pv) (num_val q) ;;
        l <- pylog (1 - x) ;;
        Ok (- l)
      else Ok 0) ;;
   t <- pydiv numerator denominator ;;
   Ok (pyround_to t (precision_or 10 precision)))%result.

Definition solve_q (r : R) (t : R) (r_is : pyopt tagval) (pv fv : pyopt R)
    (q_per_t : pyopt R) (annuity_due sinking_fund : bool)
    (precision : pyopt Z) : result R :=
  (r_is <- r_is_or_default r_is ;;
   iRates <- rates_per_period r r_is q_per_t ;;
   let t := if num_truthy q_per_t then t * num_val q_per_t else t in
   let r := if annuity_due then b_d iRates else b_i iRates in
   np <-
     (if num_eq_False fv && num_eq_False pv
      then Ok (1, Given 16%Z)
      else if negb sinking_fund && num_eq_False fv && num_truthy pv
      then Ok (num_val pv, precision)
      else if negb sinking_fund && negb (num_eq_False fv)
              && negb (num_eq_False pv)
      then p <- pypow (b_v iRates) t ;; Ok (num_val fv * p - num_val pv, precision)
      else if sinking_fund && negb (num_eq_False fv) && num_eq_False pv
      then Ok (num_val fv, precision)
      else
        p <- pypow (1 + b_i iRates) t ;;
        Ok (num_val fv - num_val pv * p, precision)) ;;
   let numerator := fst np in
   let precision := snd np in
   denominator <-
     (if negb sinking_fund
      then p <- pypow (b_v iRates) t ;; pydiv (1 - p) r
      else p <- pypow (1 + b_i iRates) t ;; pydiv (p - 1) r) ;;
   pmt <- pydiv numerator denominator ;;
   Ok (pyround_to pmt (precision_or 2 precision)))%result.

(** * Definitions used to state the properties *)

(** [k] is a nearest integer of [x], the even one on a tie. *)
Definition nearest_even (x : R) (k : Z) : Prop :=
  Rabs (x - IZR k) < 1 / 2 \/ (Rabs (x - IZR k) = 1 / 2 /\ Z.even k = true).

(** The spec's reading of an optional amount: 1 when absent. *)
Definition default_one (a : pyopt R) : R :=
  match a with
  | PyFalse => 1
  | Given x => x
  end.

(** An amount that is neither omitted nor zero. *)
Definition present (a : pyopt R) : option R :=
  if num_eq_False a then None else Some (num_val a).

(** The payment stream before pv and fv are taken in. *)
Definition stream_of (h : heap) (q : pyq) (t : pyopt Z) : list R :=
  let l := match q with
           | QNum x => [x]
           | QList p => nth p h []
           end in
  if int_eq_False t then l else list_mul l (int_val t).

(** The assembled cash flows, following the specification: -pv is put in
    front of the stream (pv is subtracted from the first payment for an
    annuity due), fv is subtracted from the last payment (-fv is appended
    for an annuity due).  An absent amount changes nothing. *)
Definition cash_flow (pv : option R) (stream : list R) (fv : option R)
    (annuity_due : bool) : list R :=
  let with_pv :=
    match pv with
    | None => stream
    | Some x =>
        if annuity_due
        then match stream with
             | [] => []
             | y :: s => (y - x) :: s
             end
        else (- x) :: stream
    end in
  match fv with
  | None => with_pv
  | Some z =>
      if annuity_due
      then with_pv ++ [- z]
      else removelast with_pv ++ [last with_pv 0 - z]
  end.

Definition valid_q (h : heap) (q : pyq) : Prop :=
  match q with
  | QNum _ => True
  | QList p => (p < List.length h)%nat
  end.

(** The four keys of the rate dictionary. *)
Definition canonical (k : string) : Prop :=
  k = "i"%string \/ k = "d"%string \/ k = "v"%string \/ k = "delta"%string.

(** The rate [root_rate] computes, as a function of the list of payments
    alone. *)
Definition rate_of_flows (polyroots : list R -> result (list pyroot))
    (flows : list R) : result R :=
  (roots <- polyroots flows ;;
   let real := real_roots roots in
   let real := match real with [] => [1] | _ :: _ => real end in
   r <- pymax real ;;
   mx <- pymax flows ;;
   if Rlt_dec mx 0 then Ok 0
   else
     mn <- pymin flows ;;
     if Rlt_dec 0 mn then Ok 0 else Ok (r - 1))%result.

(** An optional amount with its sign changed. *)
Definition opposite (a : pyopt R) : pyopt R :=
  match a with
  | PyFalse => PyFalse
  | Given x => Given (- x)
  end.

(** The sum of the entries of [l], the j-th one weighted by
    [base ^ (k + j)]. *)
Fixpoint weighted_sum (base : R) (k : nat) (l : list R) : R :=
  match l with
  | [] => 0
  | x :: l' => x * base ^ k + weighted_sum base (S k) l'
  end.

(** A payment argument that is a number or omitted, as a number. *)
Definition scalar_q (q : pyopt pyq) : option R :=
  match q with
  | PyFalse => Some 0
  | Given (QNum x) => Some x
  | Given (QList _) => None
  end.

(** * Properties *)

(** ** Rounding *)

Ltac split_Rabs :=
  unfold Rabs in *;
  repeat match goal with
         | |- context [Rcase_abs ?x] => destruct (Rcase_abs x)
         | H : context [Rcase_abs ?x] |- _ => destruct (Rcase_abs x)
         end.

Lemma round_half_even_nearest (x : R) : nearest_even x (round_half_even x).
Proof.
  unfold nearest_even, round_half_even.
  destruct (base_Int_part x) as [Hlo Hhi].
  set (n := Int_part x) in *.
  destruct (Rlt_dec (x - IZR n) (1 / 2)) as [Hlt | Hge].
  - left. split_Rabs; lra.
  - destruct (Rlt_dec (1 / 2) (x - IZR n)) as [Hgt | Hle].
    + left. rewrite plus_IZR. split_Rabs; lra.
    + assert (Heq : x - IZR n = 1 / 2) by lra.
      destruct (Z.even n) eqn:Hev.
      * right. split; [split_Rabs; lra | exact Hev].
      * right. split.
        -- rewrite plus_IZR. split_Rabs; lra.
        -- rewrite Z.even_add, Hev. reflexivity.
Qed.

Lemma nearest_even_unique (x : R) (k1 k2 : Z) :
  nearest_even x k1 -> nearest_even x k2 -> k1 = k2.
Proof.
  intros H1 H2.
  assert (Hle : Rabs (x - IZR k1) <= 1 / 2 /\ Rabs (x - IZR k2) <= 1 / 2).
  { destruct H1 as [H1 | [H1 _]], H2 as [H2 | [H2 _]]; lra. }
  destruct Hle as [Ha Hb].
  assert (Hd : (-1 <= k1 - k2 <= 1)%Z).
  { split; apply le_IZR; rewrite minus_IZR; split_Rabs; lra. }
  destruct (Z.eq_dec k1 k2) as [-> | Hne]; [reflexivity | exfalso].
  assert (Hcase : (k1 = k2 + 1 \/ k2 = k1 + 1)%Z) by lia.
  assert (Hstrict : Rabs (x - IZR k1) = 1 / 2 /\ Rabs (x - IZR k2) = 1 / 2).
  { assert (HR : IZR k1 = IZR k2 + 1 \/ IZR k2 = IZR k1 + 1).
    { destruct Hcase as [E | E]; [left | right];
        rewrite E, plus_IZR; reflexivity. }
    destruct HR; split_Rabs; split; lra. }
  destruct Hstrict as [Hs1 Hs2].
  destruct H1 as [H1 | [_ E1]]; [lra |].
  destruct H2 as [H2 | [_ E2]]; [lra |].
  destruct Hcase as [E | E]; rewrite E, Z.even_add in *;
    simpl in *; destruct (Z.even k1), (Z.even k2); discriminate.
Qed.

Lemma round_half_even_IZR (k : Z) : round_half_even (IZR k) = k.
Proof.
  apply (nearest_even_unique (IZR k)).
  - apply round_half_even_nearest.
  - left. split_Rabs; lra.
Qed.

Lemma round_half_even_err (x : R) :
  Rabs (IZR (round_half_even x) - x) <= 1 / 2.
Proof.
  destruct (round_half_even_nearest x) as [H | [H _]]; split_Rabs; lra.
Qed.

(** Rounding commutes with reflection about an even integer. *)
Lemma round_half_even_reflect (N : Z) (y : R) :
  Z.even N = true ->
  round_half_even (IZR N - y) = (N - round_half_even y)%Z.
Proof.
  intros HN.
  apply (nearest_even_unique (IZR N - y)).
  - apply round_half_even_nearest.
  - destruct (round_half_even_nearest y) as [H | [H E]].
    + left. rewrite minus_IZR. split_Rabs; lra.
    + right. split.
      * rewrite minus_IZR. split_Rabs; lra.
      * rewrite Z.even_sub, HN, E. reflexivity.
Qed.

Lemma pow10_pos (n : nat) : 0 < 10 ^ n.
Proof. apply pow_lt; lra. Qed.

Lemma pyround_err (x : R) (n : nat) :
  Rabs (pyround x n - x) <= / (2 * 10 ^ n).
Proof.
  unfold pyround.
  pose proof (pow10_pos n) as Hp.
  pose proof (round_half_even_err (x * 10 ^ n)) as He.
  set (k := IZR (round_half_even (x * 10 ^ n))) in *.
  replace (k / 10 ^ n - x) with ((k - x * 10 ^ n) * / 10 ^ n) by (field; lra).
  rewrite Rabs_mult, (Rabs_pos_eq (/ 10 ^ n)).
  - replace (/ (2 * 10 ^ n)) with (1 / 2 * / 10 ^ n) by (field; lra).
    apply Rmult_le_compat_r; [| exact He].
    apply Rlt_le, Rinv_0_lt_compat, Hp.
  - apply Rlt_le, Rinv_0_lt_compat, Hp.
Qed.

(** A decimal with at most [n] places is its own rounding. *)
Lemma pyround_exact (k : Z) (n : nat) :
  pyround (IZR k / 10 ^ n) n = IZR k / 10 ^ n.
Proof.
  unfold pyround. pose proof (pow10_pos n) as Hp.
  replace (IZR k / 10 ^ n * 10 ^ n) with (IZR k) by (field; lra).
  rewrite round_half_even_IZR. reflexivity.
Qed.

Lemma pow10_IZR (n : nat) : 10 ^ n = IZR (10 ^ Z.of_nat n).
Proof. rewrite <- pow_IZR. reflexivity. Qed.

Lemma pyround_one_minus (x : R) (n : nat) :
  (0 < n)%nat -> pyround (1 - x) n = 1 - pyround x n.
Proof.
  intros Hn. unfold pyround. pose proof (pow10_pos n) as Hp.
  replace ((1 - x) * 10 ^ n) with (IZR (10 ^ Z.of_nat n) - x * 10 ^ n)
    by (rewrite <- pow10_IZR; ring).
  rewrite round_half_even_reflect.
  - rewrite minus_IZR, <- pow10_IZR. field. lra.
  - rewrite Z.even_pow by lia. reflexivity.
Qed.

Lemma pyround_nonneg (x : R) (n : nat) : 0 <= x -> 0 <= pyround x n.
Proof.
  intros Hx. unfold pyround. pose proof (pow10_pos n) as Hp.
  apply Rmult_le_pos; [| apply Rlt_le, Rinv_0_lt_compat, Hp].
  assert (H0 : 0 <= x * 10 ^ n) by (apply Rmult_le_pos; lra).
  pose proof (round_half_even_err (x * 10 ^ n)) as He.
  set (k := round_half_even (x * 10 ^ n)) in *.
  destruct (Z_lt_le_dec k 0) as [Hneg | Hpos].
  - assert (IZR k <= -1) by (apply IZR_le; lia).
    split_Rabs; lra.
  - apply IZR_le. exact Hpos.
Qed.

(** ** Arithmetic primitives on their domain *)

Ltac case_R :=
  match goal with
  | |- context [Req_dec_T ?a ?b] =>
      destruct (Req_dec_T a b); try (exfalso; lra)
  | |- context [Rlt_dec ?a ?b] =>
      destruct (Rlt_dec a b); try (exfalso; lra)
  end.

Lemma pydiv_ok (x y : R) : y <> 0 -> pydiv x y = Ok (x / y).
Proof.
  intros Hy. unfold pydiv.
  destruct (Req_dec_T y 0) as [E | _]; [contradiction | reflexivity].
Qed.

Lemma pydiv_zero (x : R) : pydiv x 0 = Raise ZeroDivisionError.
Proof. unfold pydiv. repeat case_R. reflexivity. Qed.

Lemma pylog_ok (x : R) : 0 < x -> pylog x = Ok (ln x).
Proof. intros Hx. unfold pylog. repeat case_R. reflexivity. Qed.

Lemma pypow_pos (x y : R) : 0 < x -> pypow x y = Ok (Rpower x y).
Proof. intros Hx. unfold pypow. repeat case_R. reflexivity. Qed.

Lemma pypow_zero_pos (y : R) : 0 < y -> pypow 0 y = Ok 0.
Proof. intros Hy. unfold pypow. repeat case_R. reflexivity. Qed.

Lemma Int_part_IZR (k : Z) : Int_part (IZR k) = k.
Proof.
  destruct (base_Int_part (IZR k)) as [Hlo Hhi].
  assert (H1 : (Int_part (IZR k) <= k)%Z) by (apply le_IZR; lra).
  assert (H2 : (k - 1 < Int_part (IZR k))%Z).
  { apply lt_IZR. rewrite minus_IZR. lra. }
  lia.
Qed.

Lemma pypow_neg_int (x : R) (k : Z) :
  x < 0 -> pypow x (IZR k) = Ok (powerRZ x k).
Proof.
  intros Hx. unfold pypow. repeat case_R.
  unfold is_integer. rewrite Int_part_IZR.
  destruct (Req_dec_T (IZR k) (IZR k)) as [_ | N];
    [reflexivity | contradiction].
Qed.

(** ** [rates] *)

Lemma interest_ok (r : R) :
  1 + r <> 0 ->
  interest r =
  Ok (mkBundle r (r / (1 + r)) (1 - r / (1 + r)) (exp r - 1)).
Proof.
  intros H. unfold interest. rewrite pydiv_ok by exact H. reflexivity.
Qed.

Lemma interest_minus_one : interest (-1) = Raise ZeroDivisionError.
Proof.
  unfold interest. replace (1 + -1) with 0 by ring.
  rewrite pydiv_zero. reflexivity.
Qed.

(** Without any option, [rates] is [interest] followed by [roundValues]. *)
Lemma rates_plain (r : R) :
  rates r PyFalse PyFalse PyFalse =
  (b <- interest r ;; Ok (Bundle (roundValues b)))%result.
Proof.
  unfold rates, rates_body. simpl.
  destruct (interest r); simpl; [| reflexivity].
  unfold num_truthy. simpl. reflexivity.
Qed.

Lemma rates_inner_plain (r : R) :
  rates_inner r = (b <- interest r ;; Ok (Bundle (roundValues b)))%result.
Proof.
  unfold rates_inner, rates_body. simpl.
  destruct (interest r); simpl; [| reflexivity].
  unfold num_truthy. simpl. reflexivity.
Qed.

Lemma rates_inner_eq (r : R) : rates_inner r = rates r PyFalse PyFalse PyFalse.
Proof. rewrite rates_inner_plain, rates_plain. reflexivity. Qed.

(** The frequency step of [rates]: the recursive call runs before the
    field selection, which is the one of a call without [q_per_t]. *)
Lemma rates_rescale (r q : R) (get : pyopt tagval) :
  q <> 0 -> -1 < pyround r 10 ->
  rates r PyFalse get (Given q) =
  rates (Rpower (1 + pyround r 10) (1 / q) - 1) PyFalse get PyFalse.
Proof.
  intros Hq Hr.
  assert (Hne : 1 + r <> 0).
  { intros E. replace r with (IZR (-10 ^ 10) / 10 ^ 10) in Hr.
    - rewrite pyround_exact in Hr. simpl in Hr. lra.
    - simpl. lra. }
  unfold rates at 1. unfold rates_body. simpl.
  rewrite (interest_ok r Hne). simpl.
  unfold num_truthy. simpl. repeat case_R. simpl.
  rewrite (pydiv_ok 1 q Hq). simpl.
  rewrite pypow_pos by lra. simpl.
  rewrite rates_inner_plain.
  unfold rates, rates_body. simpl.
  destruct (interest (Rpower (1 + pyround r 10) (1 / q) - 1));
    simpl; reflexivity.
Qed.

Lemma delta_ok (r : R) :
  -1 < r -> ln (1 + r) <> -1 ->
  delta r =
  Ok (mkBundle (ln (1 + r)) (ln (1 + r) / (1 + ln (1 + r)))
               (1 - ln (1 + r) / (1 + ln (1 + r))) r).
Proof.
  intros Hr Hl. unfold delta.
  rewrite pylog_ok by lra. simpl.
  rewrite pydiv_ok by lra. reflexivity.
Qed.

(** C3: for r > -1 read as an interest rate (no tag), [rates] returns the
    bundle with i = r, d = i/(1+i), v = 1 - d and delta = exp(i) - 1, each
    rounded to 10 places, and the rounded v is one minus the rounded d;
    for an input tagged as a force of interest, the bundle's i is
    ln(1 + delta) rounded to 10 places (delta > -1, ln(1 + delta) <> -1,
    where the logarithm and the division are defined). *)
Theorem rates_four_forms (r dl : R) (tag : tagval) :
  -1 < r ->
  -1 < dl -> ln (1 + dl) <> -1 ->
  tag_truthy (Given tag) = true ->
  get_rType (pystr tag) = Ok "delta"%string ->
  (rates r PyFalse PyFalse PyFalse =
     Ok (Bundle (mkBundle (pyround r 10)
                          (pyround (r / (1 + r)) 10)
                          (pyround (1 - r / (1 + r)) 10)
                          (pyround (exp r - 1) 10)))
   /\ pyround (1 - r / (1 + r)) 10 = 1 - pyround (r / (1 + r)) 10)
  /\ exists b,
       rates dl (Given tag) PyFalse PyFalse = Ok (Bundle b)
       /\ b_i b = pyround (ln (1 + dl)) 10
       /\ b_delta b = pyround dl 10.
Proof.
  intros Hr Hdl Hln Htag Hty. split.
  - split.
    + rewrite rates_plain, interest_ok by lra. reflexivity.
    + apply pyround_one_minus. lia.
  - unfold rates, rates_body. rewrite Htag, Hty. simpl.
    rewrite (delta_ok dl Hdl Hln). simpl.
    unfold num_truthy. simpl.
    eexists. split; [reflexivity |]. simpl. split; reflexivity.
Qed.

Lemma rates_four_forms_witness :
  (rates (1 / 20) PyFalse PyFalse PyFalse =
     Ok (Bundle (mkBundle (pyround (1 / 20) 10)
                          (pyround (1 / 20 / (1 + 1 / 20)) 10)
                          (pyround (1 - 1 / 20 / (1 + 1 / 20)) 10)
                          (pyround (exp (1 / 20) - 1) 10)))
   /\ pyround (1 - 1 / 20 / (1 + 1 / 20)) 10
      = 1 - pyround (1 / 20 / (1 + 1 / 20)) 10)
  /\ exists b,
       rates 0 (Given (TagStr "delta")) PyFalse PyFalse = Ok (Bundle b)
       /\ b_i b = pyround (ln (1 + 0)) 10
       /\ b_delta b = pyround 0 10.
Proof.
  apply (rates_four_forms (1 / 20) 0 (TagStr "delta")).
  - lra.
  - lra.
  - replace (1 + 0) with 1 by ring. rewrite ln_1. lra.
  - reflexivity.
  - reflexivity.
Defined.

(** ** Frequency rescaling *)


Lemma pow10_10 : 10 ^ 10 = 10000000000.
Proof. simpl. ring. Qed.






(** ** Round trip through the discount rate *)

(** The error of d -> d/(1-d) at a d that is within half a unit of the
    tenth place of i/(1+i). *)
Lemma discount_inverse_bound (i d1 : R) :
  -1 < i -> 1 + i <= 10000000000 ->
  Rabs (d1 - i / (1 + i)) <= / (2 * 10000000000) ->
  1 - d1 <> 0 /\ Rabs (d1 / (1 - d1) - i) <= (1 + i) ^ 2 / 10000000000.
Proof.
  intros Hi HT Hd.
  set (s := 1 + i) in *.
  assert (Hs : 0 < s) by (unfold s; lra).
  set (d0 := i / s) in *.
  assert (Hd0 : s * d0 = i) by (unfold d0; field; lra).
  assert (Hb : - / (2 * 10000000000) <= d1 - d0 <= / (2 * 10000000000)).
  { unfold Rabs in Hd. destruct (Rcase_abs (d1 - d0)); lra. }
  assert (Hup : s * (d1 - d0) <= s * / (2 * 10000000000))
    by (apply Rmult_le_compat_l; lra).
  assert (Hlo : s * - / (2 * 10000000000) <= s * (d1 - d0))
    by (apply Rmult_le_compat_l; lra).
  assert (HsD : 1 / 2 <= s * (1 - d1)) by (unfold s in *; lra).
  assert (HD : 0 < 1 - d1).
  { destruct (Rlt_dec 0 (1 - d1)) as [H | H]; [exact H | exfalso]. nra. }
  split; [lra |].
  set (X := d1 / (1 - d1) - i).
  assert (HX : (1 - d1) * X = s * (d1 - d0)).
  { unfold X.
    replace ((1 - d1) * (d1 / (1 - d1) - i)) with (d1 - i * (1 - d1))
      by (field; lra).
    unfold s in *. nra. }
  assert (HsX : s * (1 - d1) * X = s * s * (d1 - d0)) by nra.
  clearbody X d0.
  unfold Rdiv. simpl pow.
  unfold Rabs. destruct (Rcase_abs X); nra.
Qed.

(** C8: for -1 < i with 1 + i <= 1e10, converting i to its (rounded)
    discount rate and that discount rate back, tagged 'd', returns an
    interest rate within (1+i)^2 * 1e-10 + 0.5e-10 of i; for i <= 1 that is
    within 5e-10. *)
Theorem rates_discount_round_trip (i : R) :
  -1 < i -> 1 + i <= 10 ^ 10 ->
  exists b1 b2,
    rates i PyFalse PyFalse PyFalse = Ok (Bundle b1)
    /\ rates (b_d b1) (Given (TagStr "d")) PyFalse PyFalse = Ok (Bundle b2)
    /\ Rabs (b_i b2 - i) <= (1 + i) ^ 2 / 10 ^ 10 + / (2 * 10 ^ 10)
    /\ (i <= 1 -> Rabs (b_i b2 - i) <= 5 / 10 ^ 10).
Proof.
  intros Hi HT.
  pose proof (pyround_err (i / (1 + i)) 10) as Ed.
  rewrite pow10_10 in *.
  destruct (discount_inverse_bound i (pyround (i / (1 + i)) 10) Hi HT Ed)
    as [Hne Hb].
  set (d1 := pyround (i / (1 + i)) 10) in *.
  exists (roundValues
            (mkBundle i (i / (1 + i)) (1 - i / (1 + i)) (exp i - 1))).
  exists (roundValues
            (mkBundle (d1 / (1 - d1)) d1 (1 - d1)
                      (exp (d1 / (1 - d1)) - 1))).
  split; [rewrite rates_plain, interest_ok by lra; reflexivity |].
  split.
  - unfold rates, rates_body. simpl. fold d1.
    unfold discount. rewrite pydiv_ok by exact Hne. simpl.
    unfold num_truthy. simpl. reflexivity.
  - cbn [b_i roundValues].
    pose proof (pyround_err (d1 / (1 - d1)) 10) as Ei.
    rewrite pow10_10 in Ei.
    assert (Hmain : Rabs (pyround (d1 / (1 - d1)) 10 - i)
                    <= (1 + i) ^ 2 / 10000000000 + / (2 * 10000000000)).
    { clearbody d1. split_Rabs; lra. }
    split; [exact Hmain |].
    intros Hle.
    assert (Hsq : (1 + i) ^ 2 <= 4) by (simpl; nra).
    clearbody d1. split_Rabs; lra.
Qed.

Lemma rates_discount_round_trip_witness :
  exists b1 b2,
    rates (1 / 10) PyFalse PyFalse PyFalse = Ok (Bundle b1)
    /\ rates (b_d b1) (Given (TagStr "d")) PyFalse PyFalse = Ok (Bundle b2)
    /\ Rabs (b_i b2 - 1 / 10)
       <= (1 + 1 / 10) ^ 2 / 10 ^ 10 + / (2 * 10 ^ 10)
    /\ (1 / 10 <= 1 -> Rabs (b_i b2 - 1 / 10) <= 5 / 10 ^ 10).
Proof.
  apply (rates_discount_round_trip (1 / 10)).
  - lra.
  - rewrite pow10_10. lra.
Defined.

(** ** [solve_r] without a payment stream *)

Lemma num_eq_False_zero : num_eq_False (Given 0) = true.
Proof. unfold num_eq_False. repeat case_R. reflexivity. Qed.

Lemma num_eq_False_nonzero (x : R) : x <> 0 -> num_eq_False (Given x) = false.
Proof.
  intros Hx. unfold num_eq_False.
  destruct (Req_dec_T x 0); [contradiction | reflexivity].
Qed.

(** The amount the closed form uses is the spec's default, unless a zero
    was supplied. *)
Lemma default_one_code (a : pyopt R) :
  default_one a <> 0 ->
  (if num_eq_False a then 1 else num_val a) = default_one a.
Proof.
  destruct a as [| x]; simpl; [reflexivity |].
  intros Hx. destruct (Req_dec_T x 0); [contradiction | reflexivity].
Qed.

(** The closed form of the rate when no payment stream is given. *)
Lemma solve_r_rate_closed_form (polyroots : list R -> result (list pyroot))
    (pv fv : pyopt R) (t : Z) (annuity_due : bool) (h : heap) :
  t <> 0%Z ->
  0 < default_one fv / default_one pv ->
  solve_r_rate polyroots pv PyFalse (Given t) fv annuity_due h =
  (Ok (Rpower (default_one fv / default_one pv) (1 / IZR t) - 1), h).
Proof.
  intros Ht Hpos.
  assert (Hpv : default_one pv <> 0).
  { intros E. rewrite E in Hpos. unfold Rdiv in Hpos.
    rewrite Rinv_0 in Hpos. lra. }
  assert (Hfv : default_one fv <> 0).
  { intros E. rewrite E in Hpos. unfold Rdiv in Hpos. lra. }
  unfold solve_r_rate. cbn [q_eq_False].
  rewrite (default_one_code pv Hpv), (default_one_code fv Hfv).
  cbn [int_val].
  unfold lift. rewrite pydiv_ok by exact Hpv. simpl.
  rewrite pydiv_ok by (apply not_0_IZR; exact Ht). simpl.
  rewrite pypow_pos by exact Hpos. reflexivity.
Qed.

(** C4: with no payment stream and t <> 0, the periodic rate handed to
    [rates] is (fv/pv)^(1/t) - 1, with 1 for an absent pv or fv; stated
    where the ratio is positive, so that the power is a real number.  The
    heap is untouched. *)
Theorem solve_r_no_payment (polyroots : list R -> result (list pyroot))
    (pv fv : pyopt R) (t : Z) (annuity_due : bool) (h : heap) :
  t <> 0%Z ->
  0 < default_one fv / default_one pv ->
  solve_r_rate polyroots pv PyFalse (Given t) fv annuity_due h =
  (Ok (Rpower (default_one fv / default_one pv) (1 / IZR t) - 1), h).
Proof. apply solve_r_rate_closed_form. Qed.

Lemma solve_r_no_payment_witness :
  solve_r_rate polyroots_linear (Given 100) PyFalse (Given 2%Z) (Given 121)
               false [] =
  (Ok (Rpower (default_one (Given 121) / default_one (Given 100))
              (1 / IZR 2) - 1), []).
Proof.
  apply (solve_r_no_payment polyroots_linear (Given 100) (Given 121) 2
                            false []).
  - lia.
  - simpl. lra.
Defined.

Lemma pyround_decimal (x : R) (k : Z) :
  x = IZR k / 10 ^ 10 -> pyround x 10 = x.
Proof. intros ->. apply pyround_exact. Qed.

(** How [solve_r] continues from the periodic rate. *)
Lemma solve_r_from_rate (polyroots : list R -> result (list pyroot))
    (pv : pyopt R) (q : pyopt pyq) (t : pyopt Z) (fv : pyopt R)
    (annuity_due : bool) (get : pyopt tagval) (q_per_t : pyopt R)
    (h h' : heap) (r : R) :
  solve_r_rate polyroots pv q t fv annuity_due h = (Ok r, h') ->
  solve_r polyroots pv q t fv annuity_due get q_per_t h =
  (rates r PyFalse get
         (if num_eq_False q_per_t then q_per_t
          else Given (1 / num_val q_per_t)), h').
Proof.
  intros Hrate. unfold solve_r, bind. rewrite Hrate.
  destruct q_per_t as [| x]; simpl; [reflexivity |].
  unfold lift, ret. unfold pydiv.
  destruct (Req_dec_T x 0); reflexivity.
Qed.

Lemma solve_r_rate_negative_pv (polyroots : list R -> result (list pyroot))
    (h : heap) :
  solve_r_rate polyroots (Given (-100)) PyFalse (Given 1%Z) (Given 110)
               false h = (Ok (-21 / 10), h).
Proof.
  unfold solve_r_rate, lift. cbn [q_eq_False].
  rewrite !num_eq_False_nonzero by lra. cbn [num_val int_val].
  rewrite (pydiv_ok 110 (-100)) by lra. simpl rbind.
  rewrite (pydiv_ok 1 1) by lra. simpl rbind.
  replace (1 / 1) with (IZR 1) by lra.
  rewrite pypow_neg_int by lra. simpl. do 2 f_equal. lra.
Qed.

Lemma rates_plain_i (r : R) (k : Z) :
  1 + r <> 0 -> r = IZR k / 10 ^ 10 ->
  exists b, rates r PyFalse PyFalse PyFalse = Ok (Bundle b) /\ b_i b = r.
Proof.
  intros Hne Hk. rewrite rates_plain, interest_ok by exact Hne.
  eexists. split; [reflexivity |]. simpl.
  apply (pyround_decimal _ k Hk).
Qed.

(** C5 as stated fails: with pv = -100 the closed form is
    (110 / -100)^(1/1) - 1 = -2.1, and that is the i of the bundle. *)
Lemma solve_r_negative_pv_counterexample :
  exists b,
    solve_r polyroots_linear (Given (-100)) PyFalse (Given 1%Z) (Given 110)
            false PyFalse PyFalse [] = (Ok (Bundle b), [])
    /\ b_i b = -21 / 10
    /\ b_i b <> 1 / 10.
Proof.
  destruct (rates_plain_i (-21 / 10) (-21000000000)) as [b [Hb Hi]];
    [lra | rewrite pow10_10; lra |].
  exists b. split; [| split; lra].
  rewrite (solve_r_from_rate _ _ _ _ _ _ _ _ _ _ _
             (solve_r_rate_negative_pv polyroots_linear [])).
  simpl. rewrite Hb. reflexivity.
Qed.

(** C5, as the code has it: solve_r(pv=100, fv=110, t=1) yields the
    interest rate 0.10; with pv = -100 the same call yields -2.1, the
    closed form taking the signs as they are given. *)
Theorem solve_r_ten_percent (polyroots : list R -> result (list pyroot))
    (h : heap) :
  (exists b,
     solve_r polyroots (Given 100) PyFalse (Given 1%Z) (Given 110)
             false PyFalse PyFalse h = (Ok (Bundle b), h)
     /\ b_i b = 1 / 10)
  /\ (exists b,
        solve_r polyroots (Given (-100)) PyFalse (Given 1%Z) (Given 110)
                false PyFalse PyFalse h = (Ok (Bundle b), h)
        /\ b_i b = -21 / 10).
Proof.
  split.
  - assert (Hr : Rpower (110 / 100) (1 / 1) - 1 = 1 / 10).
    { replace (1 / 1) with 1 by lra. rewrite Rpower_1 by lra. lra. }
    destruct (rates_plain_i (1 / 10) 1000000000) as [b [Hb Hi]];
      [lra | rewrite pow10_10; lra |].
    exists b. split; [| exact Hi].
    assert (Hrate : solve_r_rate polyroots (Given 100) PyFalse (Given 1%Z)
                      (Given 110) false h = (Ok (1 / 10), h)).
    { rewrite solve_r_rate_closed_form by (simpl; (lia || lra)).
      simpl default_one. rewrite Hr. reflexivity. }
    rewrite (solve_r_from_rate _ _ _ _ _ _ _ _ _ _ _ Hrate).
    simpl. rewrite Hb. reflexivity.
  - destruct (rates_plain_i (-21 / 10) (-21000000000)) as [b [Hb Hi]];
      [lra | rewrite pow10_10; lra |].
    exists b. split; [| exact Hi].
    rewrite (solve_r_from_rate _ _ _ _ _ _ _ _ _ _ _
               (solve_r_rate_negative_pv polyroots h)).
    simpl. rewrite Hb. reflexivity.
Qed.

(** ** Frequency rescaling in [solve_r] *)


Lemma pyround_zero : pyround 0 10 = 0.
Proof. apply (pyround_decimal 0 0). rewrite pow10_10. lra. Qed.


(** ** Zero and omission *)

(** C10: in [solve_r] a zero argument behaves as an omitted one: q = 0
    takes the closed-form path of an omitted q; pv = 0 and fv = 0 behave as
    omitted, and on the closed-form path they are replaced by 1; the same
    holds for t, q_per_t and get. *)
Theorem solve_r_zero_is_omitted
    (polyroots : list R -> result (list pyroot))
    (pv : pyopt R) (q : pyopt pyq) (t : pyopt Z) (fv : pyopt R)
    (annuity_due : bool) (get : pyopt tagval) (q_per_t : pyopt R)
    (h : heap) :
  solve_r polyroots pv (Given (QNum 0)) t fv annuity_due get q_per_t h
    = solve_r polyroots pv PyFalse t fv annuity_due get q_per_t h
  /\ solve_r polyroots (Given 0) q t fv annuity_due get q_per_t h
     = solve_r polyroots PyFalse q t fv annuity_due get q_per_t h
  /\ solve_r polyroots pv q t (Given 0) annuity_due get q_per_t h
     = solve_r polyroots pv q t PyFalse annuity_due get q_per_t h
  /\ solve_r_rate polyroots (Given 0) PyFalse t fv annuity_due h
     = solve_r_rate polyroots (Given 1) PyFalse t fv annuity_due h
  /\ solve_r_rate polyroots pv PyFalse t (Given 0) annuity_due h
     = solve_r_rate polyroots pv PyFalse t (Given 1) annuity_due h
  /\ solve_r polyroots pv q (Given 0%Z) fv annuity_due get q_per_t h
     = solve_r polyroots pv q PyFalse fv annuity_due get q_per_t h
  /\ solve_r polyroots pv q t fv annuity_due get (Given 0) h
     = solve_r polyroots pv q t fv annuity_due get PyFalse h
  /\ solve_r polyroots pv q t fv annuity_due (Given (TagInt 0)) q_per_t h
     = solve_r polyroots pv q t fv annuity_due PyFalse q_per_t h.
Proof.
  assert (H1 : num_eq_False (Given 1) = false)
    by (apply num_eq_False_nonzero; lra).
  split; [| split; [| split; [| split; [| split; [| split; [| split]]]]]].
  - unfold solve_r, solve_r_rate. cbn [q_eq_False].
    destruct (Req_dec_T 0 0) as [_ | N]; [reflexivity | contradiction].
  - unfold solve_r, solve_r_rate, payments.
    rewrite num_eq_False_zero. reflexivity.
  - unfold solve_r, solve_r_rate, payments.
    rewrite num_eq_False_zero. reflexivity.
  - unfold solve_r_rate. rewrite num_eq_False_zero, H1. reflexivity.
  - unfold solve_r_rate. rewrite num_eq_False_zero, H1. reflexivity.
  - reflexivity.
  - unfold solve_r, bind. rewrite num_eq_False_zero. cbn [negb].
    destruct (solve_r_rate polyroots pv q t fv annuity_due h)
      as [[r | e] h']; [| reflexivity].
    unfold ret, lift, rates, rates_body, num_truthy.
    rewrite num_eq_False_zero. reflexivity.
  - unfold solve_r, bind.
    destruct (solve_r_rate polyroots pv q t fv annuity_due h)
      as [[r | e] h']; [| reflexivity].
    destruct (if negb (num_eq_False q_per_t)
              then (x <- lift (pydiv 1 (num_val q_per_t)) ;; ret (Given x))%heap
              else ret q_per_t) as [[q' | e] h'']; reflexivity.
Qed.

(** ** The heap *)

Lemma list_set_length {A : Type} (l : list A) (n : nat) (a : A) :
  List.length (list_set l n a) = List.length l.
Proof.
  revert n. induction l as [| x l IH]; intros [| n]; simpl; auto.
Qed.

Lemma nth_list_set_eq {A : Type} (l : list A) (n : nat) (a d : A) :
  (n < List.length l)%nat -> nth n (list_set l n a) d = a.
Proof.
  revert n. induction l as [| x l IH]; intros [| n] Hn; simpl in *;
    try lia; [reflexivity | apply IH; lia].
Qed.

Lemma nth_list_set_ne {A : Type} (l : list A) (n m : nat) (a d : A) :
  n <> m -> nth m (list_set l n a) d = nth m l d.
Proof.
  revert n m. induction l as [| x l IH]; intros [| n] [| m] Hne; simpl;
    try reflexivity; try contradiction.
  apply IH. lia.
Qed.

Lemma nth_app_new {A : Type} (h : list A) (l d : A) :
  nth (List.length h) (h ++ [l]) d = l.
Proof.
  rewrite app_nth2 by lia. rewrite Nat.sub_diag. reflexivity.
Qed.

(** Overwriting the last cell, as [l[-1] = v] does on a non-empty list. *)
Lemma list_set_last {A : Type} (l : list A) (a : A) :
  l <> [] -> list_set l (List.length l - 1) a = removelast l ++ [a].
Proof.
  induction l as [| x l IH]; intros Hne; [contradiction |].
  destruct l as [| y l]; [reflexivity |].
  simpl List.length. replace (S (S (List.length l)) - 1)%nat
    with (S (S (List.length l) - 1)) by lia.
  change (x :: list_set (y :: l) (S (List.length l) - 1) a
          = x :: (removelast (y :: l) ++ [a])).
  f_equal. apply IH. discriminate.
Qed.

(** ** The assembled cash flows *)

Lemma nth_app_last {A : Type} (h : list A) (n : nat) (l d : A) :
  n = List.length h -> nth n (h ++ [l]) d = l.
Proof. intros ->. apply nth_app_new. Qed.

Lemma last_cons_any {A : Type} (y : A) (s : list A) (d : A) :
  last (y :: s) d = last s y.
Proof.
  revert y d. induction s as [| z s IH]; intros y d; [reflexivity |].
  change (last (z :: s) d = last (z :: s) y).
  rewrite (IH z d), (IH z y). reflexivity.
Qed.

Ltac heap_lengths :=
  repeat first [ rewrite list_set_length | rewrite length_app ]; simpl; lia.

Ltac heap_nth :=
  repeat first [ rewrite nth_app_last by heap_lengths
               | rewrite nth_list_set_eq by heap_lengths ].

Lemma payments_spec (pv : pyopt R) (q : pyq) (t : pyopt Z) (fv : pyopt R)
    (annuity_due : bool) (h : heap) :
  valid_q h q -> stream_of h q t <> [] ->
  exists p h',
    payments pv q t fv annuity_due h = (Ok p, h')
    /\ nth p h' [] =
       cash_flow (present pv) (stream_of h q t) (present fv) annuity_due.
Proof.
  intros Hv Hne.
  unfold payments, stream_of, present, cash_flow in *.
  destruct q as [x | p];
    destruct (int_eq_False t); destruct (num_eq_False pv);
    destruct (num_eq_False fv); destruct annuity_due;
    cbn [negb andb valid_q] in *;
    unfold bind, ret, read, write, new_list, lift; cbn [fst snd].
  all: heap_nth.
  all: match type of Hne with
       | [_] <> [] => idtac
       | ?s <> [] =>
           remember s as l eqn:El; destruct l as [| y s'];
           [contradiction |]
       end.
  all: heap_nth; cbn [list_first list_last].
  all: do 2 eexists; (split; [reflexivity |]).
  all: heap_nth.
  all: rewrite ?list_set_last by discriminate; rewrite ?last_cons_any.
  all: try reflexivity.
  all: symmetry; assumption.
Qed.

(** ** Maximum, minimum and the real roots *)

Lemma fold_left_Rmaxb_spec (l : list R) (x : R) :
  In (fold_left Rmaxb l x) (x :: l)
  /\ forall y, In y (x :: l) -> y <= fold_left Rmaxb l x.
Proof.
  revert x. induction l as [| a l IH]; intros x; simpl.
  - split; [left; reflexivity | intros y [-> | []]; lra].
  - destruct (IH (Rmaxb x a)) as [Hin Hub]. split.
    + destruct Hin as [E | Hin]; [| right; right; exact Hin].
      rewrite <- E. unfold Rmaxb. destruct (Rlt_dec x a); auto.
    + intros y Hy.
      assert (Hxa : x <= Rmaxb x a /\ a <= Rmaxb x a)
        by (unfold Rmaxb; destruct (Rlt_dec x a); lra).
      assert (Hm : Rmaxb x a <= fold_left Rmaxb l (Rmaxb x a))
        by (apply Hub; left; reflexivity).
      destruct Hy as [-> | [-> | Hy]]; [lra | lra |].
      apply Hub. right. exact Hy.
Qed.

Lemma fold_left_Rminb_spec (l : list R) (x : R) :
  In (fold_left Rminb l x) (x :: l)
  /\ forall y, In y (x :: l) -> fold_left Rminb l x <= y.
Proof.
  revert x. induction l as [| a l IH]; intros x; simpl.
  - split; [left; reflexivity | intros y [-> | []]; lra].
  - destruct (IH (Rminb x a)) as [Hin Hlb]. split.
    + destruct Hin as [E | Hin]; [| right; right; exact Hin].
      rewrite <- E. unfold Rminb. destruct (Rlt_dec a x); auto.
    + intros y Hy.
      assert (Hxa : Rminb x a <= x /\ Rminb x a <= a)
        by (unfold Rminb; destruct (Rlt_dec a x); lra).
      assert (Hm : fold_left Rminb l (Rminb x a) <= Rminb x a)
        by (apply Hlb; left; reflexivity).
      destruct Hy as [-> | [-> | Hy]]; [lra | lra |].
      apply Hlb. right. exact Hy.
Qed.

Lemma pymax_spec (l : list R) :
  l <> [] ->
  exists m, pymax l = Ok m /\ In m l /\ forall y, In y l -> y <= m.
Proof.
  destruct l as [| x l]; [contradiction | intros _].
  exists (fold_left Rmaxb l x). split; [reflexivity |].
  apply fold_left_Rmaxb_spec.
Qed.

Lemma pymin_spec (l : list R) :
  l <> [] ->
  exists m, pymin l = Ok m /\ In m l /\ forall y, In y l -> m <= y.
Proof.
  destruct l as [| x l]; [contradiction | intros _].
  exists (fold_left Rminb l x). split; [reflexivity |].
  apply fold_left_Rminb_spec.
Qed.

Lemma real_roots_In (roots : list pyroot) (x : R) :
  In x (real_roots roots) <-> In (mpf x) roots.
Proof.
  induction roots as [| [y | re im] roots IH]; simpl.
  - tauto.
  - rewrite IH. split; intros [E | H]; auto; left; congruence.
  - rewrite IH. split; [auto | intros [E | H]; [discriminate | exact H]].
Qed.

(** What [root_rate] computes on a non-empty list whose roots are found:
    the heap is only read. *)
Lemma root_rate_run (polyroots : list R -> result (list pyroot))
    (p : loc) (h : heap) (flows : list R) (rs : list pyroot) :
  nth p h [] = flows -> flows <> [] -> polyroots flows = Ok rs ->
  exists root mx mn,
    pymax (match real_roots rs with
           | [] => [1]
           | _ :: _ => real_roots rs
           end) = Ok root
    /\ pymax flows = Ok mx
    /\ pymin flows = Ok mn
    /\ root_rate polyroots p h =
       (Ok (if Rlt_dec mx 0 then 0
            else if Rlt_dec 0 mn then 0 else root - 1), h).
Proof.
  intros Hp Hne Hrs.
  destruct (pymax_spec flows Hne) as [mx [Hmx _]].
  destruct (pymin_spec flows Hne) as [mn [Hmn _]].
  assert (Hreal : match real_roots rs with
                  | [] => [1]
                  | _ :: _ => real_roots rs
                  end <> [])
    by (destruct (real_roots rs); discriminate).
  destruct (pymax_spec _ Hreal) as [root [Hroot _]].
  exists root, mx, mn. repeat (split; [assumption |]).
  unfold root_rate, bind, read, lift, ret. rewrite Hp, Hrs. cbv zeta.
  rewrite Hroot, Hmx.
  destruct (Rlt_dec mx 0); [reflexivity |].
  rewrite Hmn. destruct (Rlt_dec 0 mn); reflexivity.
Qed.

(** ** [solve_r] with a payment stream *)

Lemma cash_flow_nonempty (pv : option R) (stream : list R) (fv : option R)
    (annuity_due : bool) :
  stream <> [] -> cash_flow pv stream fv annuity_due <> [].
Proof.
  destruct stream as [| y s]; [contradiction | intros _].
  unfold cash_flow.
  destruct pv, fv, annuity_due; simpl; try discriminate;
    try (intros E; symmetry in E; revert E; apply app_cons_not_nil).
Qed.

(** The periodic rate of a payment stream, from the list [payments] builds
    and the three quantities [root_rate] computes on it. *)
Lemma solve_r_rate_stream (polyroots : list R -> result (list pyroot))
    (pv : pyopt R) (q : pyq) (t : pyopt Z) (fv : pyopt R)
    (annuity_due : bool) (h : heap) (rs : list pyroot) :
  q_eq_False (Given q) = false ->
  valid_q h q ->
  stream_of h q t <> [] ->
  polyroots (cash_flow (present pv) (stream_of h q t) (present fv)
                       annuity_due) = Ok rs ->
  exists p h' root mx mn,
    payments pv q t fv annuity_due h = (Ok p, h')
    /\ nth p h' [] =
       cash_flow (present pv) (stream_of h q t) (present fv) annuity_due
    /\ pymax (match real_roots rs with
              | [] => [1]
              | _ :: _ => real_roots rs
              end) = Ok root
    /\ pymax (nth p h' []) = Ok mx
    /\ pymin (nth p h' []) = Ok mn
    /\ solve_r_rate polyroots pv (Given q) t fv annuity_due h =
       (Ok (if Rlt_dec mx 0 then 0
            else if Rlt_dec 0 mn then 0 else root - 1), h').
Proof.
  intros Hq Hv Hne Hrs.
  destruct (payments_spec pv q t fv annuity_due h Hv Hne)
    as [p [h' [Hpay Hflows]]].
  pose proof (cash_flow_nonempty (present pv) _ (present fv) annuity_due Hne)
    as Hne'.
  rewrite <- Hflows in Hrs, Hne'.
  destruct (root_rate_run polyroots p h' _ rs eq_refl Hne' Hrs)
    as [root [mx [mn [Hroot [Hmx [Hmn Hrun]]]]]].
  exists p, h', root, mx, mn.
  repeat (split; [assumption |]).
  unfold solve_r_rate. rewrite Hq. unfold bind. rewrite Hpay. exact Hrun.
Qed.

(** C1: for a payment stream q (repeated t times when t is given), the
    list handed to the root finder is the stream with -pv put in front (pv
    subtracted from the first payment for an annuity due) and fv
    subtracted from the last payment (-fv appended for an annuity due);
    when m is the greatest real root found and the list has both a
    non-negative and a non-positive entry, the periodic rate is m - 1. *)
Theorem solve_r_payment_stream (polyroots : list R -> result (list pyroot))
    (pv : pyopt R) (q : pyq) (t : pyopt Z) (fv : pyopt R)
    (annuity_due : bool) (h : heap) (rs : list pyroot) (m : R) :
  q_eq_False (Given q) = false ->
  valid_q h q ->
  stream_of h q t <> [] ->
  polyroots (cash_flow (present pv) (stream_of h q t) (present fv)
                       annuity_due) = Ok rs ->
  In (mpf m) rs ->
  (forall x, In (mpf x) rs -> x <= m) ->
  (exists x, In x (cash_flow (present pv) (stream_of h q t) (present fv)
                             annuity_due) /\ 0 <= x) ->
  (exists y, In y (cash_flow (present pv) (stream_of h q t) (present fv)
                             annuity_due) /\ y <= 0) ->
  exists p h',
    payments pv q t fv annuity_due h = (Ok p, h')
    /\ nth p h' [] =
       cash_flow (present pv) (stream_of h q t) (present fv) annuity_due
    /\ solve_r_rate polyroots pv (Given q) t fv annuity_due h =
       (Ok (m - 1), h').
Proof.
  intros Hq Hv Hne Hrs Hm Hmax [x [Hx Hx0]] [y [Hy Hy0]].
  destruct (solve_r_rate_stream polyroots pv q t fv annuity_due h rs
              Hq Hv Hne Hrs)
    as [p [h' [root [mx [mn [Hpay [Hfl [Hroot [Hmx [Hmn Hrun]]]]]]]]]].
  exists p, h'. split; [exact Hpay |]. split; [exact Hfl |].
  rewrite Hrun. rewrite Hfl in Hmx, Hmn.
  assert (Hne' : cash_flow (present pv) (stream_of h q t) (present fv)
                           annuity_due <> [])
    by (apply cash_flow_nonempty; exact Hne).
  destruct (pymax_spec _ Hne') as [mx' [Emx [_ Hub]]].
  destruct (pymin_spec _ Hne') as [mn' [Emn [_ Hlb]]].
  rewrite Emx in Hmx. rewrite Emn in Hmn.
  injection Hmx as <-. injection Hmn as <-.
  pose proof (Hub x Hx) as Hxm. pose proof (Hlb y Hy) as Hym.
  destruct (Rlt_dec mx' 0); [lra |].
  destruct (Rlt_dec 0 mn'); [lra |].
  assert (Hin : In m (real_roots rs)) by (apply real_roots_In; exact Hm).
  assert (Hreal : real_roots rs <> [])
    by (intros E; rewrite E in Hin; exact Hin).
  destruct (pymax_spec _ Hreal) as [root' [Er [Hrin Hrub]]].
  destruct (real_roots rs) as [| z zs] eqn:Ers; [contradiction |].
  rewrite Er in Hroot. injection Hroot as <-.
  assert (root' <= m) by (apply Hmax, real_roots_In; rewrite Ers; exact Hrin).
  assert (m <= root') by (apply Hrub; exact Hin).
  do 2 f_equal. lra.
Qed.

Lemma present_nonzero (x : R) : x <> 0 -> present (Given x) = Some x.
Proof.
  intros Hx. unfold present. rewrite num_eq_False_nonzero by exact Hx.
  reflexivity.
Qed.

Lemma polyroots_linear_two (a b : R) :
  a <> 0 -> polyroots_linear [a; b] = Ok [mpf (- b / a)].
Proof.
  intros Ha. unfold polyroots_linear. rewrite pydiv_ok by exact Ha.
  reflexivity.
Qed.

Lemma solve_r_payment_stream_witness :
  exists p h',
    payments (Given 100) (QList 0%nat) PyFalse PyFalse false [[110]]
      = (Ok p, h')
    /\ nth p h' [] =
       cash_flow (present (Given 100))
                 (stream_of [[110]] (QList 0%nat) PyFalse)
                 (present PyFalse) false
    /\ solve_r_rate polyroots_linear (Given 100) (Given (QList 0%nat))
                    PyFalse PyFalse false [[110]] =
       (Ok (11 / 10 - 1), h').
Proof.
  assert (Hfl : cash_flow (present (Given 100))
                          (stream_of [[110]] (QList 0%nat) PyFalse)
                          (present PyFalse) false = [- (100); 110]).
  { rewrite present_nonzero by lra. reflexivity. }
  apply (solve_r_payment_stream polyroots_linear (Given 100) (QList 0%nat)
           PyFalse PyFalse false [[110]] [mpf (- (110) / - (100))]
           (11 / 10)).
  - reflexivity.
  - simpl. lia.
  - discriminate.
  - rewrite Hfl. apply polyroots_linear_two. lra.
  - left. f_equal. field; lra.
  - intros x [E | []]. injection E as <-. apply Req_le. field; lra.
  - rewrite Hfl. exists 110. split; [right; left; reflexivity | lra].
  - rewrite Hfl. exists (- (100)). split; [left; reflexivity | lra].
Defined.

(** X25: where the test of lines 261-262 fires.  When every entry of the
    assembled list is strictly negative, or every entry is strictly
    positive, and the root finder returns, the periodic rate is 0 whatever
    the roots are, and [rates] is called at 0. *)
Theorem solve_r_no_investment (polyroots : list R -> result (list pyroot))
    (pv : pyopt R) (q : pyq) (t : pyopt Z) (fv : pyopt R)
    (annuity_due : bool) (get : pyopt tagval) (h : heap)
    (rs : list pyroot) :
  q_eq_False (Given q) = false ->
  valid_q h q ->
  stream_of h q t <> [] ->
  polyroots (cash_flow (present pv) (stream_of h q t) (present fv)
                       annuity_due) = Ok rs ->
  Forall (fun x => x < 0)
         (cash_flow (present pv) (stream_of h q t) (present fv) annuity_due)
  \/ Forall (fun x => 0 < x)
         (cash_flow (present pv) (stream_of h q t) (present fv) annuity_due) ->
  exists h',
    solve_r_rate polyroots pv (Given q) t fv annuity_due h = (Ok 0, h')
    /\ solve_r polyroots pv (Given q) t fv annuity_due get PyFalse h =
       (rates 0 PyFalse get PyFalse, h').
Proof.
  intros Hq Hv Hne Hrs Hsign.
  destruct (solve_r_rate_stream polyroots pv q t fv annuity_due h rs
              Hq Hv Hne Hrs)
    as [p [h' [root [mx [mn [Hpay [Hfl [Hroot [Hmx [Hmn Hrun]]]]]]]]]].
  assert (Hne' : cash_flow (present pv) (stream_of h q t) (present fv)
                           annuity_due <> [])
    by (apply cash_flow_nonempty; exact Hne).
  rewrite Hfl in Hmx, Hmn.
  destruct (pymax_spec _ Hne') as [mx' [Emx [Hmxin _]]].
  destruct (pymin_spec _ Hne') as [mn' [Emn [Hmnin _]]].
  rewrite Emx in Hmx. rewrite Emn in Hmn.
  injection Hmx as <-. injection Hmn as <-.
  assert (Hzero : solve_r_rate polyroots pv (Given q) t fv annuity_due h
                  = (Ok 0, h')).
  { rewrite Hrun. destruct Hsign as [Hneg | Hpos].
    - rewrite Forall_forall in Hneg. pose proof (Hneg _ Hmxin).
      destruct (Rlt_dec mx' 0); [reflexivity | lra].
    - rewrite Forall_forall in Hpos. pose proof (Hpos _ Hmnin).
      destruct (Rlt_dec mx' 0); [reflexivity |].
      destruct (Rlt_dec 0 mn'); [reflexivity | lra]. }
  exists h'. split; [exact Hzero |].
  rewrite (solve_r_from_rate _ _ _ _ _ _ get PyFalse _ _ _ Hzero).
  reflexivity.
Qed.

Lemma solve_r_no_investment_witness :
  exists h',
    solve_r_rate polyroots_linear (Given 100) (Given (QNum (-10))) PyFalse
                 PyFalse false [] = (Ok 0, h')
    /\ solve_r polyroots_linear (Given 100) (Given (QNum (-10))) PyFalse
               PyFalse false PyFalse PyFalse [] =
       (rates 0 PyFalse PyFalse PyFalse, h').
Proof.
  assert (Hfl : cash_flow (present (Given 100))
                          (stream_of [] (QNum (-10)) PyFalse)
                          (present PyFalse) false = [- (100); -10]).
  { rewrite present_nonzero by lra. reflexivity. }
  apply (solve_r_no_investment polyroots_linear (Given 100) (QNum (-10))
           PyFalse PyFalse false PyFalse [] [mpf (- (-10) / - (100))]).
  - unfold q_eq_False. destruct (Req_dec_T (-10) 0); [lra | reflexivity].
  - exact I.
  - discriminate.
  - rewrite Hfl. apply polyroots_linear_two. lra.
  - left. rewrite Hfl. repeat constructor; lra.
Defined.

(** The rate of a two-entry list whose entries do not have one strict
    sign, with the closed-form root finder. *)
Lemma root_rate_linear (a c : R) :
  a <> 0 -> (0 <= a \/ 0 <= c) -> (a <= 0 \/ c <= 0) ->
  root_rate polyroots_linear 0%nat [[a; c]] = (Ok (- c / a - 1), [[a; c]]).
Proof.
  intros Ha Hhi Hlo.
  unfold root_rate, bind, read, lift, ret. cbn [nth].
  rewrite (polyroots_linear_two a c Ha). cbn [real_roots pymax pymin fold_left].
  unfold Rmaxb, Rminb.
  destruct (Rlt_dec a c), (Rlt_dec c a);
    repeat match goal with
           | |- context [Rlt_dec ?x ?y] => destruct (Rlt_dec x y)
           end;
    try reflexivity; exfalso; destruct Hhi, Hlo; lra.
Qed.

(** C2: the no-investment test misses a payment of 0.  The comment of
    lines 258-260 asks for the error value 0 whenever the payments are all
    ins or all outs, but the test [max(q) < 0 or min(q) > 0] is strict.  On
    the list [5, 0] every payment is non-negative, the minimum 0 is not
    above 0, the rate stays the root-derived 0/5 - 1 = -1 instead of 0, and
    [rates] then raises [ZeroDivisionError] on 1 + (-1). *)
Theorem solve_r_zero_payment_not_flagged :
  cash_flow (present PyFalse) (stream_of [[5; 0]] (QList 0%nat) PyFalse)
            (present PyFalse) false = [5; 0]
  /\ Forall (fun x => 0 <= x) [5; 0]
  /\ (exists r,
        solve_r_rate polyroots_linear PyFalse (Given (QList 0%nat)) PyFalse
                     PyFalse false [[5; 0]] = (Ok r, [[5; 0]])
        /\ r = -1 /\ r <> 0)
  /\ solve_r polyroots_linear PyFalse (Given (QList 0%nat)) PyFalse PyFalse
             false PyFalse PyFalse [[5; 0]]
     = (Raise ZeroDivisionError, [[5; 0]]).
Proof.
  assert (Hrate : solve_r_rate polyroots_linear PyFalse (Given (QList 0%nat))
                    PyFalse PyFalse false [[5; 0]]
                  = (Ok (- 0 / 5 - 1), [[5; 0]])).
  { unfold solve_r_rate. cbn [q_eq_False].
    change (payments PyFalse (QList 0%nat) PyFalse PyFalse false)
      with (fun h : heap => (@Ok loc 0%nat, h)).
    unfold bind. apply root_rate_linear; lra. }
  split; [reflexivity |].
  split; [repeat constructor; lra |].
  split.
  - eexists. split; [exact Hrate |]. split; lra.
  - rewrite (solve_r_from_rate _ _ _ _ _ _ PyFalse PyFalse _ _ _ Hrate).
    cbn [num_eq_False]. rewrite rates_plain.
    replace (- 0 / 5 - 1) with (-1) by lra.
    rewrite interest_minus_one. reflexivity.
Qed.

(** ** The caller's list *)

Lemma root_rate_heap (polyroots : list R -> result (list pyroot))
    (p : loc) (h : heap) :
  snd (root_rate polyroots p h) = h.
Proof.
  unfold root_rate, bind, read, lift, ret.
  destruct (polyroots (nth p h [])) as [rs | e]; [| reflexivity].
  cbv zeta.
  destruct (pymax _) as [root | e]; [| reflexivity].
  destruct (pymax (nth p h [])) as [mx | e]; [| reflexivity].
  destruct (Rlt_dec mx 0); [reflexivity |].
  destruct (pymin (nth p h [])) as [mn | e]; [| reflexivity].
  destruct (Rlt_dec 0 mn); reflexivity.
Qed.

(** After the periodic rate is known, [solve_r] only computes. *)
Lemma solve_r_heap (polyroots : list R -> result (list pyroot))
    (pv : pyopt R) (q : pyopt pyq) (t : pyopt Z) (fv : pyopt R)
    (annuity_due : bool) (get : pyopt tagval) (q_per_t : pyopt R)
    (h : heap) :
  snd (solve_r polyroots pv q t fv annuity_due get q_per_t h) =
  snd (solve_r_rate polyroots pv q t fv annuity_due h).
Proof.
  unfold solve_r, bind.
  destruct (solve_r_rate polyroots pv q t fv annuity_due h)
    as [[r | e] h']; [| reflexivity].
  destruct (negb (num_eq_False q_per_t)); [| reflexivity].
  unfold lift, ret. destruct (pydiv 1 (num_val q_per_t)); reflexivity.
Qed.

Lemma payments_repeat_in_place (l : list R) (t : Z) :
  t <> 0%Z ->
  payments PyFalse (QList 0%nat) (Given t) PyFalse false [l] =
  (Ok 0%nat, [list_mul l t]).
Proof.
  intros Ht. unfold payments. cbn [int_eq_False].
  destruct (Z.eqb_spec t 0) as [E | _]; [contradiction | reflexivity].
Qed.

Lemma payments_fv_in_place (a b fv : R) :
  fv <> 0 ->
  payments PyFalse (QList 0%nat) PyFalse (Given fv) false [[a; b]] =
  (Ok 0%nat, [[a; b - fv]]).
Proof.
  intros Hfv. unfold payments.
  rewrite (num_eq_False_nonzero fv Hfv). reflexivity.
Qed.

(** One call of [solve_r] on the two-payment list [a, b] with a future
    value, with the closed-form root finder. *)
Lemma solve_r_fv_linear (a b fv : R) (k : Z) :
  a < 0 -> 0 <= b - fv -> fv <> 0 ->
  - (b - fv) / a <> 0 ->
  - (b - fv) / a - 1 = IZR k / 10 ^ 10 ->
  exists bd,
    solve_r polyroots_linear PyFalse (Given (QList 0%nat)) PyFalse
            (Given fv) false PyFalse PyFalse [[a; b]] =
    (Ok (Bundle bd), [[a; b - fv]])
    /\ b_i bd = - (b - fv) / a - 1.
Proof.
  intros Ha Hb Hfv Hne Hk.
  assert (Hrate : solve_r_rate polyroots_linear PyFalse (Given (QList 0%nat))
                    PyFalse (Given fv) false [[a; b]]
                  = (Ok (- (b - fv) / a - 1), [[a; b - fv]])).
  { unfold solve_r_rate. cbn [q_eq_False]. unfold bind.
    rewrite (payments_fv_in_place a b fv Hfv).
    apply root_rate_linear; [lra | right; exact Hb | left; lra]. }
  destruct (rates_plain_i (- (b - fv) / a - 1) k) as [bd [Hbd Hi]];
    [lra | exact Hk |].
  exists bd. split; [| exact Hi].
  rewrite (solve_r_from_rate _ _ _ _ _ _ PyFalse PyFalse _ _ _ Hrate).
  cbn [num_eq_False]. rewrite Hbd. reflexivity.
Qed.

(** C9, evaluated on the code: [solve_r] works on the caller's list
    object.  With t = 2 the caller's list l is l + l after the call,
    whatever the root finder does; and two successive calls
    solve_r(q=l, fv=10) on l = [-100, 110] leave l as [-100, 100] and then
    [-100, 90], and return the interest rates 0 and -0.1. *)
Theorem solve_r_changes_caller_list :
  (forall (polyroots : list R -> result (list pyroot)) (l : list R)
          (get : pyopt tagval) (q_per_t : pyopt R),
      snd (solve_r polyroots PyFalse (Given (QList 0%nat)) (Given 2%Z)
                   PyFalse false get q_per_t [l]) = [l ++ l])
  /\ exists b1 b2 h1 h2,
       solve_r polyroots_linear PyFalse (Given (QList 0%nat)) PyFalse
               (Given 10) false PyFalse PyFalse [[-100; 110]]
         = (Ok (Bundle b1), h1)
       /\ nth 0 h1 [] = [-100; 100]
       /\ solve_r polyroots_linear PyFalse (Given (QList 0%nat)) PyFalse
                  (Given 10) false PyFalse PyFalse h1
          = (Ok (Bundle b2), h2)
       /\ nth 0 h2 [] = [-100; 90]
       /\ b_i b1 = 0
       /\ b_i b2 = -1 / 10.
Proof.
  split.
  - intros polyroots l get q_per_t.
    rewrite solve_r_heap. unfold solve_r_rate. cbn [q_eq_False].
    unfold bind. rewrite payments_repeat_in_place by discriminate.
    rewrite root_rate_heap. unfold list_mul. simpl.
    rewrite app_nil_r. reflexivity.
  - destruct (solve_r_fv_linear (-100) 110 10 0) as [b1 [H1 I1]];
      try lra; try (rewrite pow10_10; lra).
    destruct (solve_r_fv_linear (-100) (110 - 10) 10 (-1000000000))
      as [b2 [H2 I2]]; try lra; try (rewrite pow10_10; lra).
    exists b1, b2, [[-100; 110 - 10]], [[-100; 110 - 10 - 10]].
    split; [exact H1 |].
    split; [simpl; repeat f_equal; lra |].
    split; [exact H2 |].
    split; [simpl; repeat f_equal; lra |].
    split; lra.
Qed.

(** * Further properties of [business.py] *)

(** ** [get_rType] *)

(** The result of [get_rType] is a canonical key, or the argument itself
    when no test recognises it. *)
Lemma get_rType_cases (x k : string) :
  get_rType x = Ok k -> canonical k \/ k = x.
Proof.
  unfold get_rType, canonical.
  destruct (x =? "1")%string; [intros [= <-]; auto |].
  destruct (str_head x) as [x0 | e]; [| discriminate]. cbn [rbind].
  destruct (lower x0 =? "i")%string; [intros [= <-]; auto |].
  destruct ((x =? "4")%string || (lower (substring 0 2 x) =? "de")%string
            || (lower x0 =? "c")%string || (lower x0 =? "f")%string);
    [intros [= <-]; auto 6 |].
  destruct ((x =? "2")%string || (lower x0 =? "d")%string);
    [intros [= <-]; auto |].
  destruct ((x =? "3")%string || (lower x0 =? "v")%string);
    [intros [= <-]; auto |].
  intros [= <-]. auto.
Qed.

Lemma get_rType_fixed (x k : string) :
  get_rType x = Ok k -> get_rType k = Ok k.
Proof.
  intros H. destruct (get_rType_cases x k H) as [[-> | [-> | [-> | ->]]] | ->];
    try reflexivity. exact H.
Qed.

(** X1: [get_rType] is idempotent: normalising a normalised tag changes
    nothing. *)
Theorem get_rType_idempotent (x k : string) :
  get_rType x = Ok k -> get_rType k = Ok k.
Proof. apply get_rType_fixed. Qed.

Lemma get_rType_idempotent_witness : get_rType "d" = Ok "d"%string.
Proof. apply (get_rType_idempotent "Discount" "d"). reflexivity. Defined.

Lemma get_rType_nonempty (c : ascii) (s : string) :
  exists k, get_rType (String c s) = Ok k.
Proof.
  unfold get_rType. destruct (String c s =? "1")%string; [eauto |].
  cbn [str_head rbind].
  repeat match goal with
         | |- context [if ?b then _ else _] => destruct b; [eauto |]
         end.
  eauto.
Qed.

(** X2: [get_rType] raises on the empty string, with an [IndexError], and
    on no other string. *)
Theorem get_rType_raises_on_empty :
  get_rType "" = Raise IndexError
  /\ forall (c : ascii) (s : string), exists k, get_rType (String c s) = Ok k.
Proof. split; [reflexivity | exact get_rType_nonempty]. Qed.

Lemma lower_ascii_idempotent (c : ascii) :
  lower_ascii (lower_ascii c) = lower_ascii c.
Proof. destruct c as [[] [] [] [] [] [] [] []]; reflexivity. Qed.

Lemma lower_idempotent (s : string) : lower (lower s) = lower s.
Proof.
  induction s as [| c s IH]; [reflexivity |].
  simpl. rewrite lower_ascii_idempotent, IH. reflexivity.
Qed.

(** Lower-casing does not create or destroy a digit. *)
Lemma lower_ascii_digit (c : ascii) :
  ((lower_ascii c =? "1")%char = (c =? "1")%char)
  /\ ((lower_ascii c =? "2")%char = (c =? "2")%char)
  /\ ((lower_ascii c =? "3")%char = (c =? "3")%char)
  /\ ((lower_ascii c =? "4")%char = (c =? "4")%char).
Proof. destruct c as [[] [] [] [] [] [] [] []]; repeat split; reflexivity. Qed.

Lemma lower_eqb_empty (s : string) :
  (lower s =? "")%string = (s =? "")%string.
Proof. destruct s; reflexivity. Qed.

Lemma lower_eqb_code (x : string) :
  ((lower x =? "1")%string = (x =? "1")%string)
  /\ ((lower x =? "2")%string = (x =? "2")%string)
  /\ ((lower x =? "3")%string = (x =? "3")%string)
  /\ ((lower x =? "4")%string = (x =? "4")%string).
Proof.
  destruct x as [| c s]; [repeat split; reflexivity |].
  destruct (lower_ascii_digit c) as [H1 [H2 [H3 H4]]].
  cbn [lower String.eqb].
  rewrite H1, H2, H3, H4, lower_eqb_empty. repeat split; reflexivity.
Qed.

Lemma lower_substring_2 (x : string) :
  lower (substring 0 2 (lower x)) = lower (substring 0 2 x).
Proof.
  destruct x as [| c [| c' s]]; cbn [lower substring];
    rewrite ?lower_ascii_idempotent; try reflexivity.
  destruct s; reflexivity.
Qed.

(** X3: [get_rType] ignores the case of its argument: on the lower-cased
    string it gives the lower-cased result (a canonical key is its own
    lower case), and it raises on the same strings. *)
Theorem get_rType_lower (x : string) :
  get_rType (lower x) = (k <- get_rType x ;; Ok (lower k))%result.
Proof.
  destruct (lower_eqb_code x) as [H1 [H2 [H3 H4]]].
  unfold get_rType. rewrite H1, H2, H3, H4, lower_substring_2.
  destruct (x =? "1")%string; [reflexivity |].
  destruct x as [| c s]; [reflexivity |].
  cbn [lower str_head rbind]. rewrite lower_ascii_idempotent.
  repeat match goal with
         | |- context [if ?b then _ else _] => destruct b; [reflexivity |]
         end.
  reflexivity.
Qed.

(** ** [rates]: invariants, errors and selectors *)

Lemma interest_v (r : R) (b : bundle) :
  interest r = Ok b -> b_v b = 1 - b_d b.
Proof.
  unfold interest. destruct (pydiv r (1 + r)); [| discriminate].
  intros [= <-]. reflexivity.
Qed.

Lemma discount_v (r : R) (b : bundle) :
  discount r = Ok b -> b_v b = 1 - b_d b.
Proof.
  unfold discount. destruct (pydiv r (1 - r)); [| discriminate].
  intros [= <-]. reflexivity.
Qed.

Lemma getV_v (r : R) (b : bundle) :
  getV r = Ok b -> b_v b = 1 - b_d b.
Proof.
  unfold getV. destruct (pydiv 1 r); [| discriminate].
  intros [= <-]. simpl. ring.
Qed.

Lemma delta_v (r : R) (b : bundle) :
  delta r = Ok b -> b_v b = 1 - b_d b.
Proof.
  unfold delta. destruct (pylog (1 + r)) as [i |]; [| discriminate].
  cbn [rbind]. destruct (pydiv i (1 + i)); [| discriminate].
  intros [= <-]. reflexivity.
Qed.

Lemma roundValues_v_near (a : bundle) :
  b_v a = 1 - b_d a ->
  Rabs (b_v (roundValues a) - (1 - b_d (roundValues a))) <= / 10 ^ 10.
Proof.
  intros H. cbn [roundValues b_v b_d].
  pose proof (pyround_err (b_v a) 10) as Hv.
  pose proof (pyround_err (b_d a) 10) as Hd.
  pose proof (pow10_pos 10) as Hp.
  replace (/ 10 ^ 10) with (/ (2 * 10 ^ 10) + / (2 * 10 ^ 10))
    by (field; lra).
  set (e := / (2 * 10 ^ 10)) in *. clearbody e.
  split_Rabs; lra.
Qed.

(** The dictionary [rates] returns is the rounding of one in which v is
    1 - d. *)
Lemma rates_unrounded_v (r : R) (r_is : pyopt tagval)
    (q_per_t : pyopt R) (b : bundle) :
  rates r r_is PyFalse q_per_t = Ok (Bundle b) ->
  exists a, b = roundValues a /\ b_v a = 1 - b_d a.
Proof.
  unfold rates, rates_body.
  destruct (if tag_truthy r_is then _ else _) as [kind | e];
    [| discriminate].
  cbn [rbind].
  destruct (if (kind =? "i")%string then _ else _) as [answer | e] eqn:Hans;
    [| discriminate].
  assert (Hv : b_v answer = 1 - b_d answer).
  { destruct (kind =? "i")%string; [exact (interest_v _ _ Hans) |].
    destruct (kind =? "d")%string; [exact (discount_v _ _ Hans) |].
    destruct (kind =? "v")%string; [exact (getV_v _ _ Hans) |].
    exact (delta_v _ _ Hans). }
  cbn [rbind]. destruct (num_truthy q_per_t).
  - destruct (pydiv 1 (num_val q_per_t)) as [e |]; [| discriminate].
    cbn [rbind].
    destruct (pypow (1 + b_i (roundValues answer)) e) as [p |];
      [| discriminate].
    cbn [rbind]. rewrite rates_inner_plain.
    destruct (interest (p - 1)) as [b' |] eqn:Hb'; [| discriminate].
    cbn [rbind tag_truthy]. intros [= <-].
    exists b'. split; [reflexivity | exact (interest_v _ _ Hb')].
  - cbn [rbind tag_truthy]. intros [= <-].
    exists answer. split; [reflexivity | exact Hv].
Qed.

(** X4: in a dictionary [rates] returns, whatever the rate kind and the
    frequency, v and 1 - d agree up to the rounding: each of v and d is
    rounded to 10 places on its own, from values with v = 1 - d, so the
    rounded v and 1 minus the rounded d are at most 2e-10 apart.  Stated
    for a d of size at most 1000, as for every interest rate above
    -0.999. *)
Theorem rates_v_near_one_minus_d (r : R) (r_is : pyopt tagval)
    (q_per_t : pyopt R) (b : bundle) :
  rates r r_is PyFalse q_per_t = Ok (Bundle b) ->
  Rabs (b_d b) <= 1000 ->
  Rabs (b_v b - (1 - b_d b)) <= 2 / 10 ^ 10.
Proof.
  intros Hb _.
  destruct (rates_unrounded_v r r_is q_per_t b Hb) as [a [-> Ha]].
  pose proof (roundValues_v_near a Ha) as H.
  pose proof (pow10_pos 10) as Hp.
  apply (Rle_trans _ _ _ H).
  apply (Rmult_le_reg_r (10 ^ 10)); [exact Hp |].
  replace (/ 10 ^ 10 * 10 ^ 10) with 1 by (field; lra).
  replace (2 / 10 ^ 10 * 10 ^ 10) with 2 by (field; lra). lra.
Qed.

Lemma rates_v_near_one_minus_d_witness :
  let b := roundValues
             (mkBundle 0 (0 / (1 + 0)) (1 - 0 / (1 + 0)) (exp 0 - 1)) in
  Rabs (b_v b - (1 - b_d b)) <= 2 / 10 ^ 10.
Proof.
  apply (rates_v_near_one_minus_d 0 PyFalse PyFalse).
  - rewrite rates_plain, interest_ok by lra. reflexivity.
  - cbn [b_d roundValues].
    replace (0 / (1 + 0)) with 0 by (field; lra).
    rewrite pyround_zero, Rabs_R0. lra.
Defined.

Lemma rates_kind (r : R) (kind : string) :
  kind <> ""%string -> get_rType kind = Ok kind ->
  rates r (Given (TagStr kind)) PyFalse PyFalse =
  (b <- (if (kind =? "i")%string then interest r
         else if (kind =? "d")%string then discount r
         else if (kind =? "v")%string then getV r
         else delta r) ;;
   Ok (Bundle (roundValues b)))%result.
Proof.
  intros Hne Hk. unfold rates, rates_body. cbn [tag_truthy pystr].
  destruct (kind =? "")%string eqn:E;
    [apply String.eqb_eq in E; contradiction |].
  cbn [negb]. rewrite Hk. cbn [rbind].
  destruct (if (kind =? "i")%string then _ else _); reflexivity.
Qed.

(** X5: the two exceptions of the conversions, without frequency and
    selector.  [ZeroDivisionError] is raised for an interest rate exactly
    at -1, for a discount rate exactly at 1 and for a discount factor
    exactly at 0; [ValueError] is raised for a force of interest exactly
    at or below -1. *)
Theorem rates_division_errors (r : R) :
  (rates r PyFalse PyFalse PyFalse = Raise ZeroDivisionError <-> r = -1)
  /\ (rates r (Given (TagStr "d")) PyFalse PyFalse = Raise ZeroDivisionError
      <-> r = 1)
  /\ (rates r (Given (TagStr "v")) PyFalse PyFalse = Raise ZeroDivisionError
      <-> r = 0)
  /\ (rates r (Given (TagStr "delta")) PyFalse PyFalse = Raise ValueError
      <-> r <= -1).
Proof.
  split; [| split; [| split]].
  - rewrite rates_plain. destruct (Req_dec_T r (-1)) as [-> | Hne].
    + rewrite interest_minus_one. split; reflexivity.
    + rewrite interest_ok by lra. split; [discriminate | contradiction].
  - rewrite rates_kind by (discriminate || reflexivity). simpl.
    unfold discount. destruct (Req_dec_T r 1) as [-> | Hne].
    + replace (1 - 1) with 0 by ring. rewrite pydiv_zero.
      split; reflexivity.
    + rewrite pydiv_ok by lra. split; [discriminate | contradiction].
  - rewrite rates_kind by (discriminate || reflexivity). simpl.
    unfold getV. destruct (Req_dec_T r 0) as [-> | Hne].
    + rewrite pydiv_zero. split; reflexivity.
    + rewrite pydiv_ok by lra. split; [discriminate | contradiction].
  - rewrite rates_kind by (discriminate || reflexivity). simpl.
    unfold delta. destruct (Rlt_dec (-1) r) as [Hr | Hr].
    + rewrite pylog_ok by lra. cbn [rbind].
      destruct (Req_dec_T (ln (1 + r)) (-1)) as [E | Hne].
      * rewrite E. replace (1 + -1) with 0 by ring. rewrite pydiv_zero.
        split; [discriminate | lra].
      * rewrite pydiv_ok by lra. split; [discriminate | lra].
    + unfold pylog. destruct (Rlt_dec 0 (1 + r)); [lra |].
      split; [lra | reflexivity].
Qed.

Lemma pystr_nonempty (tag : tagval) :
  tag_truthy (Given tag) = true -> pystr tag <> ""%string.
Proof.
  destruct tag as [z | s]; cbn [tag_truthy pystr].
  - intros _. destruct z as [| p | p]; cbn; try discriminate.
    + unfold NilZero.string_of_uint.
      destruct (Pos.to_uint p); discriminate.
  - intros H E. subst s. discriminate.
Qed.

Lemma truthy_tag_kind (tag : tagval) :
  tag_truthy (Given tag) = true ->
  exists k, get_rType (pystr tag) = Ok k /\ k <> ""%string.
Proof.
  intros Ht. pose proof (pystr_nonempty tag Ht) as Hne.
  destruct (pystr tag) as [| c s] eqn:E; [contradiction |].
  destruct (get_rType_nonempty c s) as [k Hk].
  exists k. split; [exact Hk |].
  destruct (get_rType_cases _ _ Hk) as [[-> | [-> | [-> | ->]]] | ->];
    discriminate.
Qed.

(** [rates] with a selector, from the dictionary the same call returns
    without one. *)
Lemma rates_select (r : R) (r_is : pyopt tagval) (q_per_t : pyopt R)
    (tag : tagval) (b : bundle) (k : string) :
  tag_truthy (Given tag) = true ->
  get_rType (pystr tag) = Ok k ->
  rates r r_is PyFalse q_per_t = Ok (Bundle b) ->
  rates r r_is (Given tag) q_per_t =
  (x <- bundle_get b k ;; Ok (Scalar x))%result.
Proof.
  intros Ht Hk. unfold rates, rates_body. rewrite Ht, Hk.
  destruct (if tag_truthy r_is then _ else _) as [kind | e];
    [| discriminate].
  cbn [rbind].
  destruct (if (kind =? "i")%string then _ else _) as [answer | e];
    [| discriminate].
  cbn [rbind].
  destruct (if num_truthy q_per_t then _ else _) as [[b' | x] | e];
    cbn [rbind tag_truthy]; try discriminate.
  intros [= ->]. reflexivity.
Qed.

(** X6: selecting a field.  When the call without [get] returns the
    dictionary b, the call with a selector returns the entry of b that
    [get_rType] names: i, d, v or delta; a selector that [get_rType] does
    not recognise raises [KeyError]. *)
Theorem rates_get_field (r : R) (r_is : pyopt tagval) (q_per_t : pyopt R)
    (tag : tagval) (b : bundle) (k : string) :
  tag_truthy (Given tag) = true ->
  get_rType (pystr tag) = Ok k ->
  rates r r_is PyFalse q_per_t = Ok (Bundle b) ->
  (k = "i"%string -> rates r r_is (Given tag) q_per_t = Ok (Scalar (b_i b)))
  /\ (k = "d"%string ->
      rates r r_is (Given tag) q_per_t = Ok (Scalar (b_d b)))
  /\ (k = "v"%string ->
      rates r r_is (Given tag) q_per_t = Ok (Scalar (b_v b)))
  /\ (k = "delta"%string ->
      rates r r_is (Given tag) q_per_t = Ok (Scalar (b_delta b)))
  /\ (~ canonical k -> rates r r_is (Given tag) q_per_t = Raise KeyError).
Proof.
  intros Ht Hk Hb. rewrite (rates_select r r_is q_per_t tag b k Ht Hk Hb).
  repeat split; try (intros ->; reflexivity).
  intros Hc. unfold bundle_get, canonical in *.
  destruct (k =? "i")%string eqn:E1;
    [apply String.eqb_eq in E1; tauto |].
  destruct (k =? "d")%string eqn:E2;
    [apply String.eqb_eq in E2; tauto |].
  destruct (k =? "v")%string eqn:E3;
    [apply String.eqb_eq in E3; tauto |].
  destruct (k =? "delta")%string eqn:E4;
    [apply String.eqb_eq in E4; tauto |].
  reflexivity.
Qed.

Lemma rates_zero_bundle :
  rates 0 PyFalse PyFalse PyFalse =
  Ok (Bundle (roundValues
                (mkBundle 0 (0 / (1 + 0)) (1 - 0 / (1 + 0)) (exp 0 - 1)))).
Proof. rewrite rates_plain, interest_ok by lra. reflexivity. Qed.

Lemma rates_get_field_witness :
  let b := roundValues
             (mkBundle 0 (0 / (1 + 0)) (1 - 0 / (1 + 0)) (exp 0 - 1)) in
  ("d"%string = "i"%string ->
   rates 0 PyFalse (Given (TagInt 2)) PyFalse = Ok (Scalar (b_i b)))
  /\ ("d"%string = "d"%string ->
      rates 0 PyFalse (Given (TagInt 2)) PyFalse = Ok (Scalar (b_d b)))
  /\ ("d"%string = "v"%string ->
      rates 0 PyFalse (Given (TagInt 2)) PyFalse = Ok (Scalar (b_v b)))
  /\ ("d"%string = "delta"%string ->
      rates 0 PyFalse (Given (TagInt 2)) PyFalse = Ok (Scalar (b_delta b)))
  /\ (~ canonical "d" ->
      rates 0 PyFalse (Given (TagInt 2)) PyFalse = Raise KeyError).
Proof.
  apply (rates_get_field 0 PyFalse PyFalse (TagInt 2)).
  - reflexivity.
  - reflexivity.
  - exact rates_zero_bundle.
Defined.

(** X7: a rate kind that [get_rType] does not map to i, d or v is taken
    as a force of interest, whatever it is: [rates] does not reject it. *)
Theorem rates_unknown_kind_is_delta (r : R) (tag : tagval)
    (get : pyopt tagval) (q_per_t : pyopt R) (k : string) :
  tag_truthy (Given tag) = true ->
  get_rType (pystr tag) = Ok k ->
  k <> "i"%string -> k <> "d"%string -> k <> "v"%string ->
  rates r (Given tag) get q_per_t =
  rates r (Given (TagStr "delta")) get q_per_t.
Proof.
  intros Ht Hk Hi Hd Hv. unfold rates, rates_body. rewrite Ht, Hk.
  cbn [rbind tag_truthy pystr String.eqb].
  apply String.eqb_neq in Hi, Hd, Hv. rewrite Hi, Hd, Hv.
  reflexivity.
Qed.

Lemma rates_unknown_kind_is_delta_witness :
  rates (1 / 10) (Given (TagInt 5)) PyFalse PyFalse =
  rates (1 / 10) (Given (TagStr "delta")) PyFalse PyFalse.
Proof.
  apply (rates_unknown_kind_is_delta (1 / 10) (TagInt 5) PyFalse PyFalse "5");
    (reflexivity || discriminate).
Defined.

(** ** Conversions back from a dictionary *)

(** On [1, oo) the logarithm is non-expansive. *)
Lemma ln_contract (a b : R) :
  1 <= a -> a <= b -> 0 <= ln b - ln a <= b - a.
Proof.
  intros Ha Hab.
  assert (Hq : 1 <= b / a).
  { apply (Rmult_le_reg_r a); [lra |].
    replace (b / a * a) with b by (field; lra). lra. }
  assert (Hb : b = a * (b / a)) by (field; lra).
  assert (Hln : ln b = ln a + ln (b / a)).
  { rewrite Hb at 1. apply ln_mult; lra. }
  pose proof (exp_ineq1_le (ln (b / a))) as He.
  rewrite exp_ln in He by lra.
  assert (H0 : 0 <= ln (b / a)).
  { destruct Hq as [Hq | Hq].
    - apply Rlt_le. rewrite <- ln_1. apply ln_increasing; lra.
    - rewrite <- Hq, ln_1. lra. }
  assert (Hd : b / a - 1 <= b - a).
  { replace (b - a) with (a * (b / a - 1)) by (field; lra). nra. }
  lra.
Qed.

Lemma ln_contract_abs (a b : R) :
  1 <= a -> 1 <= b -> Rabs (ln a - ln b) <= Rabs (a - b).
Proof.
  intros Ha Hb. destruct (Rle_dec a b) as [Hle | Hgt].
  - pose proof (ln_contract a b Ha Hle). split_Rabs; lra.
  - pose proof (ln_contract b a Hb ltac:(lra)). split_Rabs; lra.
Qed.

(** X9: the force of interest of the dictionary is a round trip.  For
    i >= 0, converting i to its (rounded) delta = exp(i) - 1 and that
    delta back, tagged 'delta', returns an interest rate within 1e-10 of
    i: ln(1 + delta) undoes exp(i) - 1. *)
Theorem rates_delta_round_trip (i : R) :
  0 <= i ->
  exists b1 b2,
    rates i PyFalse PyFalse PyFalse = Ok (Bundle b1)
    /\ rates (b_delta b1) (Given (TagStr "delta")) PyFalse PyFalse
       = Ok (Bundle b2)
    /\ Rabs (b_i b2 - i) <= / 10 ^ 10.
Proof.
  intros Hi.
  pose proof (exp_ineq1_le i) as Hexp.
  set (dl := pyround (exp i - 1) 10).
  assert (Hdl : 0 <= dl) by (apply pyround_nonneg; lra).
  pose proof (pyround_err (exp i - 1) 10) as E1. fold dl in E1.
  assert (Hln0 : 0 <= ln (1 + dl)).
  { destruct (Req_dec_T dl 0) as [-> | Hne].
    - replace (1 + 0) with 1 by ring. rewrite ln_1. lra.
    - apply Rlt_le. rewrite <- ln_1. apply ln_increasing; lra. }
  exists (roundValues
            (mkBundle i (i / (1 + i)) (1 - i / (1 + i)) (exp i - 1))).
  eexists.
  split; [rewrite rates_plain, interest_ok by lra; reflexivity |].
  cbn [b_delta roundValues]. fold dl.
  split.
  - rewrite rates_kind by (discriminate || reflexivity). simpl.
    rewrite delta_ok by lra. reflexivity.
  - cbn [b_i roundValues].
    pose proof (pyround_err (ln (1 + dl)) 10) as E2.
    pose proof (ln_contract_abs (1 + dl) (exp i) ltac:(lra) ltac:(lra)) as E3.
    rewrite ln_exp in E3.
    replace (/ 10 ^ 10) with (/ (2 * 10 ^ 10) + / (2 * 10 ^ 10))
      by (rewrite pow10_10; lra).
    clearbody dl. split_Rabs; lra.
Qed.

Lemma rates_delta_round_trip_witness :
  exists b1 b2,
    rates (1 / 20) PyFalse PyFalse PyFalse = Ok (Bundle b1)
    /\ rates (b_delta b1) (Given (TagStr "delta")) PyFalse PyFalse
       = Ok (Bundle b2)
    /\ Rabs (b_i b2 - 1 / 20) <= / 10 ^ 10.
Proof. apply (rates_delta_round_trip (1 / 20)). lra. Defined.

(** ** [solve_r]: roots, missing arguments and the heap *)

Lemma payments_frame (pv : pyopt R) (q : pyq) (t : pyopt Z) (fv : pyopt R)
    (annuity_due : bool) (h : heap) (p' : loc) :
  valid_q h q ->
  (p' < List.length h)%nat ->
  match q with QList p0 => p' <> p0 | QNum _ => True end ->
  nth p' (snd (payments pv q t fv annuity_due h)) [] = nth p' h [].
Proof.
  intros Hv Hp Hq.
  unfold payments.
  destruct q as [x | p0];
    destruct (int_eq_False t); destruct (num_eq_False pv);
    destruct (num_eq_False fv); destruct annuity_due;
    cbn [negb andb valid_q] in *;
    unfold bind, ret, read, write, new_list, lift; cbn [fst snd].
  all: repeat match goal with
       | |- context [match list_first ?l with _ => _ end] =>
           destruct (list_first l); cbn [fst snd]
       | |- context [match list_last ?l with _ => _ end] =>
           destruct (list_last l); cbn [fst snd]
       end.
  all: repeat first
         [ rewrite nth_list_set_ne
             by (repeat first [ rewrite list_set_length
                              | rewrite length_app ]; simpl; lia)
         | rewrite app_nth1
             by (repeat first [ rewrite list_set_length
                              | rewrite length_app ]; simpl; lia) ].
  all: reflexivity.
Qed.

Lemma solve_r_rate_heap (polyroots : list R -> result (list pyroot))
    (pv : pyopt R) (q : pyq) (t : pyopt Z) (fv : pyopt R)
    (annuity_due : bool) (h : heap) :
  q_eq_False (Given q) = false ->
  snd (solve_r_rate polyroots pv (Given q) t fv annuity_due h) =
  snd (payments pv q t fv annuity_due h).
Proof.
  intros Hq. unfold solve_r_rate. rewrite Hq. unfold bind.
  destruct (payments pv q t fv annuity_due h) as [[p | e] h'];
    [apply root_rate_heap | reflexivity].
Qed.

Lemma solve_r_rate_heap_no_payment
    (polyroots : list R -> result (list pyroot))
    (pv : pyopt R) (q : pyopt pyq) (t : pyopt Z) (fv : pyopt R)
    (annuity_due : bool) (h : heap) :
  q_eq_False q = true ->
  snd (solve_r_rate polyroots pv q t fv annuity_due h) = h.
Proof. intros Hq. unfold solve_r_rate. rewrite Hq. reflexivity. Qed.

(** X10: [solve_r] never touches a list other than the one it is given:
    whatever the arguments and whether it returns or raises, every list of
    the heap at another location is as before the call. *)
Theorem solve_r_frame (polyroots : list R -> result (list pyroot))
    (pv : pyopt R) (q : pyopt pyq) (t : pyopt Z) (fv : pyopt R)
    (annuity_due : bool) (get : pyopt tagval) (q_per_t : pyopt R)
    (h : heap) (p' : loc) :
  (p' < List.length h)%nat ->
  (forall p0, q = Given (QList p0) -> (p0 < List.length h)%nat /\ p' <> p0) ->
  nth p' (snd (solve_r polyroots pv q t fv annuity_due get q_per_t h)) []
  = nth p' h [].
Proof.
  intros Hp Hq. rewrite solve_r_heap.
  destruct (q_eq_False q) eqn:E.
  - rewrite solve_r_rate_heap_no_payment by exact E. reflexivity.
  - destruct q as [| q']; [discriminate |].
    rewrite solve_r_rate_heap by exact E.
    apply payments_frame; [| exact Hp |].
    + destruct q' as [x | p0]; [exact I |]. apply (Hq p0). reflexivity.
    + destruct q' as [x | p0]; [exact I |]. apply (Hq p0). reflexivity.
Qed.

Lemma solve_r_frame_witness :
  nth 1 (snd (solve_r polyroots_linear PyFalse (Given (QList 0%nat))
                      (Given 2%Z) PyFalse false PyFalse PyFalse
                      [[1; 2]; [3; 4]])) []
  = nth 1 [[1; 2]; [3; 4]] [].
Proof.
  apply (solve_r_frame polyroots_linear PyFalse (Given (QList 0%nat))
           (Given 2%Z) PyFalse false PyFalse PyFalse [[1; 2]; [3; 4]] 1%nat).
  - simpl. lia.
  - intros p0 [= <-]. simpl. split; lia.
Defined.

Ltac heap_nth_all :=
  repeat first
    [ rewrite nth_app_last by heap_lengths
    | rewrite nth_list_set_eq by heap_lengths
    | rewrite nth_list_set_ne by heap_lengths
    | rewrite app_nth1 by heap_lengths ].

Lemma payments_caller_list (pv : pyopt R) (p0 : loc) (t : pyopt Z)
    (fv : pyopt R) (annuity_due : bool) (h : heap) :
  (p0 < List.length h)%nat ->
  stream_of h (QList p0) t <> [] ->
  nth p0 (snd (payments pv (QList p0) t fv annuity_due h)) [] =
  if negb (num_eq_False pv) && negb annuity_due
  then stream_of h (QList p0) t
  else cash_flow (present pv) (stream_of h (QList p0) t) (present fv)
                 annuity_due.
Proof.
  intros Hv Hne.
  unfold payments, stream_of, present, cash_flow in *.
  destruct (int_eq_False t); destruct (num_eq_False pv);
    destruct (num_eq_False fv); destruct annuity_due;
    cbn [negb andb] in *;
    unfold bind, ret, read, write, new_list, lift; cbn [fst snd].
  all: heap_nth_all.
  all: match type of Hne with
       | ?s <> [] =>
           remember s as l eqn:El; destruct l as [| y s'];
           [contradiction |]
       end.
  all: heap_nth_all; cbn [list_first list_last fst snd].
  all: heap_nth_all.
  all: rewrite ?list_set_last by discriminate; rewrite ?last_cons_any.
  all: try reflexivity.
  all: symmetry; assumption.
Qed.

(** X11: what [solve_r] leaves in the caller's list, whether it returns or
    raises later.  When pv is given (and not 0) and the annuity is not due,
    the list is only repeated t times (so it is unchanged without t): pv
    and fv go to a new list.  In every other case the caller's list ends
    as the assembled cash flows. *)
Theorem solve_r_caller_list (polyroots : list R -> result (list pyroot))
    (pv : pyopt R) (p0 : loc) (t : pyopt Z) (fv : pyopt R)
    (annuity_due : bool) (get : pyopt tagval) (q_per_t : pyopt R)
    (h : heap) :
  (p0 < List.length h)%nat ->
  stream_of h (QList p0) t <> [] ->
  nth p0 (snd (solve_r polyroots pv (Given (QList p0)) t fv annuity_due
                       get q_per_t h)) [] =
  if negb (num_eq_False pv) && negb annuity_due
  then stream_of h (QList p0) t
  else cash_flow (present pv) (stream_of h (QList p0) t) (present fv)
                 annuity_due.
Proof.
  intros Hv Hne. rewrite solve_r_heap, solve_r_rate_heap by reflexivity.
  apply payments_caller_list; assumption.
Qed.

Lemma solve_r_caller_list_witness :
  nth 0 (snd (solve_r polyroots_linear (Given 100) (Given (QList 0%nat))
                      PyFalse (Given 10) false PyFalse PyFalse [[110]])) []
  = if negb (num_eq_False (Given 100)) && negb false
    then stream_of [[110]] (QList 0%nat) PyFalse
    else cash_flow (present (Given 100))
                   (stream_of [[110]] (QList 0%nat) PyFalse)
                   (present (Given 10)) false.
Proof.
  apply (solve_r_caller_list polyroots_linear (Given 100) 0%nat PyFalse
           (Given 10) false PyFalse PyFalse [[110]]).
  - simpl. lia.
  - discriminate.
Defined.

(** X12: the root finder found no real root.  Then the root defaults to 1
    and the periodic rate is 0, whatever the signs of the payments. *)
Theorem solve_r_no_real_root (polyroots : list R -> result (list pyroot))
    (pv : pyopt R) (q : pyq) (t : pyopt Z) (fv : pyopt R)
    (annuity_due : bool) (get : pyopt tagval) (h : heap)
    (rs : list pyroot) :
  q_eq_False (Given q) = false ->
  valid_q h q ->
  stream_of h q t <> [] ->
  polyroots (cash_flow (present pv) (stream_of h q t) (present fv)
                       annuity_due) = Ok rs ->
  (forall x, ~ In (mpf x) rs) ->
  exists h',
    solve_r_rate polyroots pv (Given q) t fv annuity_due h = (Ok 0, h')
    /\ solve_r polyroots pv (Given q) t fv annuity_due get PyFalse h =
       (rates 0 PyFalse get PyFalse, h').
Proof.
  intros Hq Hv Hne Hrs Hnone.
  destruct (solve_r_rate_stream polyroots pv q t fv annuity_due h rs
              Hq Hv Hne Hrs)
    as [p [h' [root [mx [mn [Hpay [Hfl [Hroot [Hmx [Hmn Hrun]]]]]]]]]].
  assert (Hreal : real_roots rs = []).
  { destruct (real_roots rs) as [| z zs] eqn:E; [reflexivity |].
    exfalso. apply (Hnone z). apply real_roots_In. rewrite E. left.
    reflexivity. }
  rewrite Hreal in Hroot. cbn in Hroot. injection Hroot as <-.
  assert (Hzero : solve_r_rate polyroots pv (Given q) t fv annuity_due h
                  = (Ok 0, h')).
  { rewrite Hrun. destruct (Rlt_dec mx 0); [reflexivity |].
    destruct (Rlt_dec 0 mn); [reflexivity |]. do 2 f_equal. lra. }
  exists h'. split; [exact Hzero |].
  rewrite (solve_r_from_rate _ _ _ _ _ _ get PyFalse _ _ _ Hzero).
  reflexivity.
Qed.

Lemma solve_r_no_real_root_witness :
  exists h',
    solve_r_rate polyroots_linear PyFalse (Given (QList 0%nat)) PyFalse
                 PyFalse false [[5]] = (Ok 0, h')
    /\ solve_r polyroots_linear PyFalse (Given (QList 0%nat)) PyFalse
               PyFalse false PyFalse PyFalse [[5]] =
       (rates 0 PyFalse PyFalse PyFalse, h').
Proof.
  apply (solve_r_no_real_root polyroots_linear PyFalse (QList 0%nat)
           PyFalse PyFalse false PyFalse [[5]] []).
  - reflexivity.
  - simpl. lia.
  - discriminate.
  - change (polyroots_linear [5] = Ok []). unfold polyroots_linear.
    destruct (Req_dec_T 5 0); [lra | reflexivity].
  - intros x [].
Defined.

(** X13: without a payment stream, [solve_r] needs t: when t is omitted
    or 0 the closed form divides 1 by t and the call raises
    [ZeroDivisionError], whatever pv and fv are; the heap is untouched. *)
Theorem solve_r_without_t (polyroots : list R -> result (list pyroot))
    (pv : pyopt R) (q : pyopt pyq) (t : pyopt Z) (fv : pyopt R)
    (annuity_due : bool) (get : pyopt tagval) (q_per_t : pyopt R)
    (h : heap) :
  q_eq_False q = true ->
  int_eq_False t = true ->
  solve_r polyroots pv q t fv annuity_due get q_per_t h =
  (Raise ZeroDivisionError, h).
Proof.
  intros Hq Ht.
  assert (Ht0 : int_val t = 0%Z).
  { destruct t as [| z]; [reflexivity |]. cbn in *.
    apply Z.eqb_eq. exact Ht. }
  assert (Hpv : (if num_eq_False pv then 1 else num_val pv) <> 0).
  { destruct pv as [| x]; cbn; [lra |].
    destruct (Req_dec_T x 0); [lra | assumption]. }
  unfold solve_r, solve_r_rate, bind, lift. rewrite Hq, Ht0.
  rewrite pydiv_ok by exact Hpv. cbn [rbind].
  rewrite pydiv_zero. reflexivity.
Qed.

Lemma solve_r_without_t_witness :
  solve_r polyroots_linear (Given 100) PyFalse PyFalse (Given 110) false
          PyFalse PyFalse [] = (Raise ZeroDivisionError, []).
Proof.
  apply (solve_r_without_t polyroots_linear (Given 100) PyFalse PyFalse
           (Given 110) false PyFalse PyFalse []); reflexivity.
Defined.

(** ** [solve_r]: the sign convention of the docstring *)

Lemma root_rate_is_rate_of_flows
    (polyroots : list R -> result (list pyroot)) (p : loc) (h : heap) :
  root_rate polyroots p h = (rate_of_flows polyroots (nth p h []), h).
Proof.
  unfold root_rate, rate_of_flows, bind, read, lift, ret.
  destruct (polyroots (nth p h [])) as [rs | e]; [| reflexivity].
  cbn [rbind]. cbv zeta.
  destruct (pymax _) as [root | e]; [| reflexivity]. cbn [rbind].
  destruct (pymax (nth p h [])) as [mx | e]; [| reflexivity]. cbn [rbind].
  destruct (Rlt_dec mx 0); [reflexivity |].
  destruct (pymin (nth p h [])) as [mn | e]; [| reflexivity]. cbn [rbind].
  destruct (Rlt_dec 0 mn); reflexivity.
Qed.

Lemma solve_r_rate_of_flows (polyroots : list R -> result (list pyroot))
    (pv : pyopt R) (q : pyq) (t : pyopt Z) (fv : pyopt R)
    (annuity_due : bool) (h : heap) :
  q_eq_False (Given q) = false ->
  valid_q h q ->
  stream_of h q t <> [] ->
  fst (solve_r_rate polyroots pv (Given q) t fv annuity_due h) =
  rate_of_flows polyroots
    (cash_flow (present pv) (stream_of h q t) (present fv) annuity_due).
Proof.
  intros Hq Hv Hne.
  destruct (payments_spec pv q t fv annuity_due h Hv Hne)
    as [p [h' [Hpay Hfl]]].
  unfold solve_r_rate. rewrite Hq. unfold bind. rewrite Hpay.
  rewrite root_rate_is_rate_of_flows, Hfl. reflexivity.
Qed.

Lemma solve_r_fst (polyroots : list R -> result (list pyroot))
    (pv : pyopt R) (q : pyopt pyq) (t : pyopt Z) (fv : pyopt R)
    (annuity_due : bool) (get : pyopt tagval) (q_per_t : pyopt R)
    (h : heap) :
  fst (solve_r polyroots pv q t fv annuity_due get q_per_t h) =
  (r <- fst (solve_r_rate polyroots pv q t fv annuity_due h) ;;
   rates r PyFalse get
         (if num_eq_False q_per_t then q_per_t
          else Given (1 / num_val q_per_t)))%result.
Proof.
  destruct (solve_r_rate polyroots pv q t fv annuity_due h)
    as [[r | e] h'] eqn:E.
  - rewrite (solve_r_from_rate _ _ _ _ _ _ get q_per_t _ _ _ E).
    reflexivity.
  - unfold solve_r, bind. rewrite E. reflexivity.
Qed.

Lemma pymax_opp (l : list R) (mn : R) :
  pymin l = Ok mn -> pymax (map Ropp l) = Ok (- mn).
Proof.
  intros Hmn. destruct l as [| x l]; [discriminate |].
  assert (Hne : x :: l <> []) by discriminate.
  destruct (pymin_spec _ Hne) as [mn' [E [Hin Hlb]]].
  rewrite E in Hmn. injection Hmn as <-.
  assert (Hne' : map Ropp (x :: l) <> []) by discriminate.
  destruct (pymax_spec _ Hne') as [m [Em [Hmin Hub]]].
  rewrite Em. f_equal.
  apply in_map_iff in Hmin. destruct Hmin as [y [Hy Hyin]].
  pose proof (Hlb y Hyin).
  pose proof (Hub (- mn') (in_map Ropp _ _ Hin)). lra.
Qed.

Lemma pymin_opp (l : list R) (mx : R) :
  pymax l = Ok mx -> pymin (map Ropp l) = Ok (- mx).
Proof.
  intros Hmx. destruct l as [| x l]; [discriminate |].
  assert (Hne : x :: l <> []) by discriminate.
  destruct (pymax_spec _ Hne) as [mx' [E [Hin Hub]]].
  rewrite E in Hmx. injection Hmx as <-.
  assert (Hne' : map Ropp (x :: l) <> []) by discriminate.
  destruct (pymin_spec _ Hne') as [m [Em [Hmin Hlb]]].
  rewrite Em. f_equal.
  apply in_map_iff in Hmin. destruct Hmin as [y [Hy Hyin]].
  pose proof (Hub y Hyin).
  pose proof (Hlb (- mx') (in_map Ropp _ _ Hin)). lra.
Qed.

Lemma rate_of_flows_opp (polyroots : list R -> result (list pyroot))
    (flows : list R) :
  (forall l, polyroots (map Ropp l) = polyroots l) ->
  flows <> [] ->
  rate_of_flows polyroots (map Ropp flows) = rate_of_flows polyroots flows.
Proof.
  intros Hpoly Hne. unfold rate_of_flows. rewrite Hpoly.
  destruct (polyroots flows) as [rs | e]; [| reflexivity].
  cbn [rbind]. cbv zeta.
  destruct (pymax (match real_roots rs with
                   | [] => [1]
                   | _ :: _ => real_roots rs
                   end)) as [root | e]; [| reflexivity].
  cbn [rbind].
  destruct (pymax_spec _ Hne) as [mx [Emx _]].
  destruct (pymin_spec _ Hne) as [mn [Emn _]].
  rewrite (pymax_opp flows mn Emn), (pymin_opp flows mx Emx), Emx, Emn.
  cbn [rbind].
  destruct (Rlt_dec (- mn) 0), (Rlt_dec mx 0), (Rlt_dec 0 (- mx)),
    (Rlt_dec 0 mn); try reflexivity; exfalso; lra.
Qed.

Lemma present_opposite (a : pyopt R) :
  present (opposite a) = option_map Ropp (present a).
Proof.
  destruct a as [| x]; [reflexivity |].
  unfold present, opposite, num_eq_False, num_val.
  destruct (Req_dec_T (- x) 0), (Req_dec_T x 0);
    try reflexivity; exfalso; lra.
Qed.

Lemma list_mul_map (f : R -> R) (l : list R) (n : Z) :
  list_mul (map f l) n = map f (list_mul l n).
Proof.
  unfold list_mul. induction (Z.to_nat n) as [| k IH]; [reflexivity |].
  simpl. rewrite map_app, IH. reflexivity.
Qed.

Lemma stream_of_opposite (h : heap) (x : R) (t : pyopt Z) :
  stream_of h (QNum (- x)) t = map Ropp (stream_of h (QNum x) t).
Proof.
  unfold stream_of. destruct (int_eq_False t); [reflexivity |].
  apply (list_mul_map Ropp [x]).
Qed.

Lemma removelast_map_opp (w : list R) :
  removelast (map Ropp w) = map Ropp (removelast w).
Proof.
  induction w as [| a w IH]; [reflexivity |].
  destruct w as [| b w]; [reflexivity |].
  change (- a :: removelast (map Ropp (b :: w))
          = - a :: map Ropp (removelast (b :: w))).
  rewrite IH. reflexivity.
Qed.

Lemma last_map_opp (w : list R) (d : R) :
  last (map Ropp w) (- d) = - last w d.
Proof.
  induction w as [| a w IH]; [reflexivity |].
  destruct w as [| b w]; [reflexivity |].
  exact IH.
Qed.

Lemma cash_flow_opposite (pv : option R) (stream : list R) (fv : option R)
    (annuity_due : bool) :
  cash_flow (option_map Ropp pv) (map Ropp stream) (option_map Ropp fv)
            annuity_due
  = map Ropp (cash_flow pv stream fv annuity_due).
Proof.
  unfold cash_flow.
  set (w := match pv with
            | Some x =>
                if annuity_due
                then match stream with
                     | [] => []
                     | y :: s => (y - x) :: s
                     end
                else - x :: stream
            | None => stream
            end).
  assert (Hw : match option_map Ropp pv with
               | Some x =>
                   if annuity_due
                   then match map Ropp stream with
                        | [] => []
                        | y :: s => (y - x) :: s
                        end
                   else - x :: map Ropp stream
               | None => map Ropp stream
               end = map Ropp w).
  { unfold w. destruct pv as [x |]; [| reflexivity]. cbn [option_map].
    destruct annuity_due; [| reflexivity].
    destruct stream as [| y s]; [reflexivity |].
    cbn [map]. f_equal. ring. }
  rewrite Hw. clearbody w.
  destruct fv as [z |]; [| reflexivity]. cbn [option_map].
  destruct annuity_due.
  - rewrite map_app. reflexivity.
  - rewrite map_app, removelast_map_opp. cbn [map]. do 2 f_equal.
    replace 0 with (- 0) at 1 by ring.
    rewrite last_map_opp. ring.
Qed.

(** X14: the sign convention of the docstring ("[-3,1,1,1,1] or
    [3,-1,-1,-1,-1] - both of which return the same interest rate").  With
    a root finder that does not depend on the sign of the polynomial,
    changing the sign of pv, of the payment q and of fv together does not
    change what [solve_r] returns or raises. *)
Theorem solve_r_sign_symmetry (polyroots : list R -> result (list pyroot))
    (pv : pyopt R) (x : R) (t : pyopt Z) (fv : pyopt R)
    (annuity_due : bool) (get : pyopt tagval) (q_per_t : pyopt R)
    (h : heap) :
  (forall l, polyroots (map Ropp l) = polyroots l) ->
  x <> 0 ->
  stream_of h (QNum x) t <> [] ->
  fst (solve_r polyroots (opposite pv) (Given (QNum (- x))) t (opposite fv)
               annuity_due get q_per_t h)
  = fst (solve_r polyroots pv (Given (QNum x)) t fv annuity_due get
                 q_per_t h).
Proof.
  intros Hpoly Hx Hne.
  assert (Hq : q_eq_False (Given (QNum x)) = false).
  { cbn. destruct (Req_dec_T x 0); [contradiction | reflexivity]. }
  assert (Hq' : q_eq_False (Given (QNum (- x))) = false).
  { cbn. destruct (Req_dec_T (- x) 0); [lra | reflexivity]. }
  assert (Hne' : stream_of h (QNum (- x)) t <> []).
  { rewrite stream_of_opposite. destruct (stream_of h (QNum x) t);
      [contradiction | discriminate]. }
  rewrite !solve_r_fst.
  rewrite (solve_r_rate_of_flows polyroots (opposite pv) (QNum (- x)) t
             (opposite fv) annuity_due h Hq' I Hne').
  rewrite (solve_r_rate_of_flows polyroots pv (QNum x) t fv annuity_due h
             Hq I Hne).
  rewrite !present_opposite, stream_of_opposite, cash_flow_opposite.
  rewrite rate_of_flows_opp;
    [reflexivity | exact Hpoly | apply cash_flow_nonempty; exact Hne].
Qed.

Lemma polyroots_linear_opp (l : list R) :
  polyroots_linear (map Ropp l) = polyroots_linear l.
Proof.
  destruct l as [| a [| b [| c l]]]; cbn [map polyroots_linear];
    try reflexivity.
  - destruct (Req_dec_T (- a) 0), (Req_dec_T a 0);
      try reflexivity; exfalso; lra.
  - unfold pydiv.
    destruct (Req_dec_T (- a) 0), (Req_dec_T a 0);
      try reflexivity; try (exfalso; lra).
    cbn [rbind]. do 3 f_equal. field. lra.
Qed.

Lemma solve_r_sign_symmetry_witness :
  fst (solve_r polyroots_linear (opposite (Given 3)) (Given (QNum (- 1)))
               PyFalse (opposite PyFalse) false PyFalse PyFalse [])
  = fst (solve_r polyroots_linear (Given 3) (Given (QNum 1)) PyFalse
                 PyFalse false PyFalse PyFalse []).
Proof.
  apply (solve_r_sign_symmetry polyroots_linear (Given 3) 1 PyFalse PyFalse
           false PyFalse PyFalse []).
  - exact polyroots_linear_opp.
  - lra.
  - discriminate.
Defined.

(** ** [pv] and [fv] *)

(** [x ** n] for a natural number n never raises and is the n-fold
    product, whatever the sign of x. *)
Lemma pypow_nat (x : R) (n : nat) :
  pypow x (IZR (Z.of_nat n)) = Ok (x ^ n).
Proof.
  destruct (Rlt_dec 0 x) as [Hpos | Hnpos].
  - rewrite pypow_pos by exact Hpos.
    rewrite <- INR_IZR_INZ, Rpower_pow by exact Hpos. reflexivity.
  - destruct (Req_dec_T x 0) as [-> | Hne].
    + destruct n as [| n].
      * unfold pypow. cbn [Z.of_nat].
        destruct (Rlt_dec 0 0); [lra |].
        destruct (Req_dec_T 0 0); [| lra].
        destruct (Rlt_dec 0 0); [lra |].
        destruct (Req_dec_T 0 0); [| lra].
        reflexivity.
      * rewrite pypow_zero_pos.
        -- f_equal. simpl. ring.
        -- apply IZR_lt. lia.
    + rewrite pypow_neg_int by lra. rewrite <- pow_powerRZ. reflexivity.
Qed.

Lemma pysum_app (l : list R) (a : R) : pysum (l ++ [a]) = pysum l + a.
Proof. unfold pysum. rewrite fold_left_app. reflexivity. Qed.

Lemma pv_loop_spec (v : R) (l pmts : list R) (k : nat) :
  exists pmts',
    pv_loop v l pmts (Z.of_nat k) =
      Ok (pmts', Z.of_nat (k + List.length l))
    /\ pysum pmts' = pysum pmts + weighted_sum v k l.
Proof.
  revert pmts k. induction l as [| x l IH]; intros pmts k.
  - exists pmts. cbn. rewrite Nat.add_0_r. split; [reflexivity | ring].
  - cbn [pv_loop]. rewrite pypow_nat. cbn [rbind].
    replace (Z.of_nat k + 1)%Z with (Z.of_nat (S k)) by lia.
    destruct (IH (pmts ++ [x * v ^ k]) (S k)) as [pmts' [Hrun Hsum]].
    exists pmts'. split.
    + rewrite Hrun. cbn [List.length]. do 3 f_equal. lia.
    + rewrite Hsum, pysum_app. cbn [weighted_sum]. ring.
Qed.

Lemma fv_loop_spec (g : R) (l pmts : list R) (k : nat) :
  exists pmts',
    fv_loop g l pmts (Z.of_nat k) = Ok pmts'
    /\ pysum pmts' = pysum pmts + weighted_sum g k l.
Proof.
  revert pmts k. induction l as [| x l IH]; intros pmts k.
  - exists pmts. cbn. split; [reflexivity | ring].
  - cbn [fv_loop]. rewrite pypow_nat. cbn [rbind].
    replace (Z.of_nat k + 1)%Z with (Z.of_nat (S k)) by lia.
    destruct (IH (pmts ++ [x * g ^ k]) (S k)) as [pmts' [Hrun Hsum]].
    exists pmts'. split; [exact Hrun |].
    rewrite Hsum, pysum_app. cbn [weighted_sum]. ring.
Qed.

Lemma pysum_nil : pysum [] = 0.
Proof. reflexivity. Qed.

Lemma list_set_same {A : Type} (h : list A) (p : nat) (d : A) :
  list_set h p (nth p h d) = h.
Proof.
  revert p. induction h as [| x h IH]; intros [| p]; simpl;
    try reflexivity.
  rewrite IH. reflexivity.
Qed.

Lemma list_set_twice {A : Type} (h : list A) (p : nat) (a b : A) :
  list_set (list_set h p a) p b = list_set h p b.
Proof.
  revert p. induction h as [| x h IH]; intros [| p]; simpl;
    try reflexivity.
  rewrite IH. reflexivity.
Qed.

Lemma nth_list_set_any {A : Type} (h : list A) (p : nat) (a d : A) :
  nth p (list_set h p a) d = a \/ ((List.length h <= p)%nat
                                   /\ list_set h p a = h).
Proof.
  revert p. induction h as [| x h IH]; intros p.
  - right. destruct p; simpl; split; (lia || reflexivity).
  - destruct p as [| p]; [left; reflexivity |].
    destruct (IH p) as [E | [Hlen E]].
    + left. exact E.
    + right. simpl. split; [lia | rewrite E; reflexivity].
Qed.

(** The list branch of [fv] leaves the heap as it found it. *)
Lemma fv_list_heap (g : R) (p : loc) (annuity_due : bool) (h : heap) :
  exists pmts,
    ((l <- read p ;;
      _ <- write p (rev l) ;;
      let t_list := if annuity_due then 1%Z else 0%Z in
      l <- read p ;;
      pmts <- lift (fv_loop g l [] t_list) ;;
      l <- read p ;;
      _ <- write p (rev l) ;;
      ret (pysum pmts))%heap h) = (Ok (pysum pmts), h)
    /\ pysum pmts =
       weighted_sum g (if annuity_due then 1 else 0) (rev (nth p h [])).
Proof.
  unfold bind, read, write, ret, lift. cbn [fst snd].
  set (l := nth p h []).
  destruct (nth_list_set_any h p (rev l) []) as [E | [Hlen E]].
  - rewrite E.
    destruct (fv_loop_spec g (rev l) [] (if annuity_due then 1 else 0))
      as [pmts [Hrun Hsum]].
    replace (if annuity_due then 1%Z else 0%Z)
      with (Z.of_nat (if annuity_due then 1 else 0))
      by (destruct annuity_due; reflexivity).
    rewrite Hrun. exists pmts. split.
    + rewrite rev_involutive, list_set_twice. unfold l.
      rewrite list_set_same. reflexivity.
    + rewrite Hsum, pysum_nil. ring.
  - rewrite E. fold l.
    assert (Hl : l = []) by (unfold l; apply nth_overflow; exact Hlen).
    rewrite Hl. cbn [rev fv_loop]. exists []. split.
    + rewrite <- Hl. unfold l. rewrite list_set_same. reflexivity.
    + reflexivity.
Qed.

Lemma bind_lift_ok {A B : Type} (a : A) (k : A -> M B) (h : heap) :
  bind (lift (Ok a)) k h = k a h.
Proof. reflexivity. Qed.

Lemma bind_lift_raise {A B : Type} (e : pyerr) (k : A -> M B) (h : heap) :
  bind (lift (@Raise A e)) k h = (Raise e, h).
Proof. reflexivity. Qed.

Lemma bind_ok {A B : Type} (c : M A) (k : A -> M B) (h h' : heap) (a : A) :
  c h = (Ok a, h') -> bind c k h = k a h'.
Proof. intros H. unfold bind. rewrite H. reflexivity. Qed.

Lemma fv_of_list_run (r : R) (t : pyopt R) (r_is : pyopt tagval) (p : loc)
    (pv : pyopt R) (q_per_t : pyopt R) (annuity_due : bool)
    (future_cash : pyopt R) (precision : pyopt Z) (h : heap)
    (k : string) (b : bundle) :
  r_is_or_default r_is = Ok k ->
  rates_per_period r k q_per_t = Ok b ->
  fv r t r_is (Given (QList p)) pv q_per_t annuity_due future_cash
     precision h =
  ((x <- pypow (1 + b_i b)
               (if num_truthy q_per_t
                then num_val t * num_val q_per_t else num_val t) ;;
    Ok (pyround_to
          (weighted_sum (1 + b_i b) (if annuity_due then 1 else 0)
                        (rev (nth p h []))
           + num_val pv * x + num_val future_cash)
          (precision_or 2 precision)))%result, h).
Proof.
  intros Hk Hb. unfold fv. rewrite Hk, bind_lift_ok, Hb, bind_lift_ok.
  cbv zeta. cbn [q_eq_False]. rewrite andb_false_r.
  destruct (fv_list_heap (1 + b_i b) p annuity_due h) as [pmts [Hrun Hsum]].
  rewrite (bind_ok _ _ _ _ _ Hrun). rewrite Hsum.
  unfold bind, lift, ret.
  destruct (pypow _ _); reflexivity.
Qed.

Lemma rates_per_period_plain (r : R) :
  1 + r <> 0 ->
  rates_per_period r "i" PyFalse =
  Ok (roundValues (mkBundle r (r / (1 + r)) (1 - r / (1 + r)) (exp r - 1))).
Proof.
  intros Hr. unfold rates_per_period. cbn [num_truthy num_eq_False negb].
  rewrite rates_kind by (discriminate || reflexivity). simpl.
  rewrite interest_ok by exact Hr. reflexivity.
Qed.

(** The heap after [fv], over the reals, where the powers of the loop are
    always defined. *)
Lemma fv_heap (r : R) (t : pyopt R) (r_is : pyopt tagval)
    (q : pyopt pyq) (pv : pyopt R) (q_per_t : pyopt R) (annuity_due : bool)
    (future_cash : pyopt R) (precision : pyopt Z) (h : heap) :
  snd (fv r t r_is q pv q_per_t annuity_due future_cash precision h) = h.
Proof.
  destruct (r_is_or_default r_is) as [k | e] eqn:Hk;
    [| unfold fv; rewrite Hk; reflexivity].
  destruct (rates_per_period r k q_per_t) as [b | e] eqn:Hb;
    [| unfold fv; rewrite Hk, bind_lift_ok, Hb; reflexivity].
  destruct q as [| [x | p]].
  - unfold fv. rewrite Hk, bind_lift_ok, Hb, bind_lift_ok.
    cbv zeta. cbn [q_eq_False]. unfold bind, lift, ret.
    destruct (pypow _ _); cbn [fst snd]; [| reflexivity].
    destruct (if annuity_due then _ else _); cbn [fst snd];
      reflexivity.
  - unfold fv. rewrite Hk, bind_lift_ok, Hb, bind_lift_ok.
    cbv zeta. unfold bind, lift, ret.
    destruct (if q_eq_False (Given (QNum x)) then QNum 0 else QNum x)
      as [y | p'] eqn:Eq;
      [| destruct (q_eq_False (Given (QNum x))); discriminate].
    destruct (pypow _ _); cbn [fst snd]; [| reflexivity].
    destruct (if annuity_due then _ else _); cbn [fst snd];
      reflexivity.
  - rewrite (fv_of_list_run r t r_is p pv q_per_t annuity_due future_cash
               precision h k b Hk Hb). reflexivity.
Qed.

(** X15: a call of [fv] that returns a value leaves every list as it
    found it: the list of payments is reversed in place before the loop
    and reversed back after it, and nothing else is written. *)
Theorem fv_restores_list (r : R) (t : pyopt R) (r_is : pyopt tagval)
    (q : pyopt pyq) (pv : pyopt R) (q_per_t : pyopt R) (annuity_due : bool)
    (future_cash : pyopt R) (precision : pyopt Z) (h : heap) (x : R) :
  fst (fv r t r_is q pv q_per_t annuity_due future_cash precision h) = Ok x ->
  snd (fv r t r_is q pv q_per_t annuity_due future_cash precision h) = h.
Proof. intros _. apply fv_heap. Qed.

Lemma fv_restores_list_witness :
  snd (fv 0 (Given 2) PyFalse (Given (QList 0%nat)) (Given 100) PyFalse
          false PyFalse PyFalse [[1; 2]]) = [[1; 2]].
Proof.
  eapply (fv_restores_list 0 (Given 2) PyFalse (Given (QList 0%nat))
            (Given 100) PyFalse false PyFalse PyFalse [[1; 2]]).
  rewrite (fv_of_list_run 0 (Given 2) PyFalse 0%nat (Given 100) PyFalse
             false PyFalse PyFalse [[1; 2]] "i" _ eq_refl
             (rates_per_period_plain 0 ltac:(lra))).
  cbn [fst b_i roundValues]. rewrite pyround_zero.
  rewrite pypow_pos by lra. reflexivity.
Defined.

(** X16: [fv] on a list of payments.  With the dictionary b of the rate
    and 1 + i > 0, the result is the sum of the payments, the last one
    weighted by (1+i)^0 (by (1+i)^1 for an annuity due) and each earlier
    one by one more power, plus pv * (1+i)^t and future_cash, rounded; t
    is the argument t, not the number of payments. *)
Theorem fv_of_list (r : R) (t : pyopt R) (r_is : pyopt tagval) (p : loc)
    (pv : pyopt R) (q_per_t : pyopt R) (annuity_due : bool)
    (future_cash : pyopt R) (precision : pyopt Z) (h : heap)
    (k : string) (b : bundle) :
  r_is_or_default r_is = Ok k ->
  rates_per_period r k q_per_t = Ok b ->
  0 < 1 + b_i b ->
  fv r t r_is (Given (QList p)) pv q_per_t annuity_due future_cash
     precision h =
  (Ok (pyround_to
         (weighted_sum (1 + b_i b) (if annuity_due then 1 else 0)
                       (rev (nth p h []))
          + num_val pv
            * Rpower (1 + b_i b)
                     (if num_truthy q_per_t
                      then num_val t * num_val q_per_t else num_val t)
          + num_val future_cash)
         (precision_or 2 precision)), h).
Proof.
  intros Hk Hb Hg.
  rewrite (fv_of_list_run r t r_is p pv q_per_t annuity_due future_cash
             precision h k b Hk Hb).
  rewrite pypow_pos by exact Hg. reflexivity.
Qed.

Lemma fv_of_list_witness :
  let b := roundValues
             (mkBundle 0 (0 / (1 + 0)) (1 - 0 / (1 + 0)) (exp 0 - 1)) in
  fv 0 (Given 2) PyFalse (Given (QList 0%nat)) (Given 100) PyFalse false
     PyFalse PyFalse [[1; 2]] =
  (Ok (pyround_to
         (weighted_sum (1 + b_i b) (if false then 1 else 0)
                       (rev (nth 0 [[1; 2]] []))
          + num_val (Given 100)
            * Rpower (1 + b_i b)
                     (if num_truthy PyFalse
                      then num_val (Given 2) * num_val PyFalse
                      else num_val (Given 2))
          + num_val PyFalse)
         (precision_or 2 PyFalse)), [[1; 2]]).
Proof.
  apply (fv_of_list 0 (Given 2) PyFalse 0%nat (Given 100) PyFalse false
           PyFalse PyFalse [[1; 2]] "i").
  - reflexivity.
  - apply rates_per_period_plain. lra.
  - cbn [b_i roundValues]. rewrite pyround_zero. lra.
Defined.

Lemma pv_of_list_run (r : R) (t : pyopt R) (r_is : pyopt tagval) (p : loc)
    (fv : pyopt R) (q_per_t : pyopt R) (annuity_due : bool)
    (cash_today : pyopt R) (precision : pyopt Z) (h : heap)
    (k : string) (b : bundle) :
  r_is_or_default r_is = Ok k ->
  rates_per_period r k q_per_t = Ok b ->
  pv r t r_is (Given (QList p)) fv q_per_t annuity_due cash_today
     precision h =
  ((x <- pypow (b_v b)
               (IZR (Z.of_nat ((if annuity_due then 0 else 1)
                               + List.length (nth p h [])) - 1)) ;;
    Ok (pyround_to
          (weighted_sum (b_v b) (if annuity_due then 0 else 1)
                        (nth p h [])
           + num_val fv * x + num_val cash_today)
          (precision_or 2 precision)))%result, h).
Proof.
  intros Hk Hb. unfold pv. rewrite Hk, bind_lift_ok, Hb, bind_lift_ok.
  cbv zeta. cbn [q_eq_False]. rewrite andb_false_r.
  unfold bind, read, lift, ret.
  destruct (pv_loop_spec (b_v b) (nth p h []) []
              (if annuity_due then 0 else 1)) as [pmts [Hrun Hsum]].
  replace (if annuity_due then 0%Z else 1%Z)
    with (Z.of_nat (if annuity_due then 0 else 1))
    by (destruct annuity_due; reflexivity).
  rewrite Hrun. cbn [fst snd]. rewrite Hsum, pysum_nil, Rplus_0_l.
  destruct (pypow _ _); reflexivity.
Qed.

(** X17: [pv] on a non-empty list of payments.  With the dictionary b of
    the rate, the result is the sum of the payments, the first one
    weighted by v^1 (by v^0 for an annuity due) and each later one by one
    more power, plus fv weighted like the last payment and cash_today,
    rounded.  The argument t plays no part, and a zero or negative v does
    not raise. *)
Theorem pv_of_list (r : R) (t : pyopt R) (r_is : pyopt tagval) (p : loc)
    (fv : pyopt R) (q_per_t : pyopt R) (annuity_due : bool)
    (cash_today : pyopt R) (precision : pyopt Z) (h : heap)
    (k : string) (b : bundle) :
  r_is_or_default r_is = Ok k ->
  rates_per_period r k q_per_t = Ok b ->
  nth p h [] <> [] ->
  pv r t r_is (Given (QList p)) fv q_per_t annuity_due cash_today
     precision h =
  (Ok (pyround_to
         (weighted_sum (b_v b) (if annuity_due then 0 else 1) (nth p h [])
          + num_val fv
            * b_v b ^ (List.length (nth p h [])
                       - (if annuity_due then 1 else 0))
          + num_val cash_today)
         (precision_or 2 precision)), h).
Proof.
  intros Hk Hb Hne.
  rewrite (pv_of_list_run r t r_is p fv q_per_t annuity_due cash_today
             precision h k b Hk Hb).
  assert (Hlen : (0 < List.length (nth p h []))%nat).
  { destruct (nth p h []); [contradiction | simpl; lia]. }
  replace (Z.of_nat ((if annuity_due then 0 else 1)
                     + List.length (nth p h [])) - 1)%Z
    with (Z.of_nat (List.length (nth p h [])
                    - (if annuity_due then 1 else 0)))
    by (destruct annuity_due; lia).
  rewrite pypow_nat. reflexivity.
Qed.

Lemma pv_of_list_witness :
  let b := roundValues
             (mkBundle 0 (0 / (1 + 0)) (1 - 0 / (1 + 0)) (exp 0 - 1)) in
  pv 0 PyFalse PyFalse (Given (QList 0%nat)) (Given 100) PyFalse false
     PyFalse PyFalse [[1; 2]] =
  (Ok (pyround_to
         (weighted_sum (b_v b) (if false then 0 else 1) (nth 0 [[1; 2]] [])
          + num_val (Given 100)
            * b_v b ^ (List.length (nth 0 [[1; 2]] [])
                       - (if false then 1 else 0))
          + num_val PyFalse)
         (precision_or 2 PyFalse)), [[1; 2]]).
Proof.
  apply (pv_of_list 0 PyFalse PyFalse 0%nat (Given 100) PyFalse false
           PyFalse PyFalse [[1; 2]] "i").
  - reflexivity.
  - apply rates_per_period_plain. lra.
  - discriminate.
Defined.

(** ** A zero interest rate *)

Lemma Rpower_one (y : R) : Rpower 1 y = 1.
Proof. unfold Rpower. rewrite ln_1, Rmult_0_r, exp_0. reflexivity. Qed.

Lemma rates_kind_i (r : R) (get : pyopt tagval) (q_per_t : pyopt R) :
  rates r (Given (TagStr "i")) get q_per_t = rates r PyFalse get q_per_t.
Proof. reflexivity. Qed.

Lemma rates_zero_fields (q_per_t : pyopt R) :
  exists b,
    rates_per_period 0 "i" q_per_t = Ok b
    /\ b_i b = 0 /\ b_d b = 0 /\ b_v b = 1.
Proof.
  assert (Hplain : exists b,
             rates 0 PyFalse PyFalse PyFalse = Ok (Bundle b)
             /\ b_i b = 0 /\ b_d b = 0 /\ b_v b = 1).
  { eexists. split; [exact rates_zero_bundle |].
    cbn [b_i b_d b_v roundValues].
    rewrite pyround_one_minus by lia.
    replace (0 / (1 + 0)) with 0 by (field; lra).
    rewrite pyround_zero. repeat split; lra. }
  destruct Hplain as [b [Hb Hf]]. exists b. split; [| exact Hf].
  unfold rates_per_period. rewrite !rates_kind_i.
  destruct (num_truthy q_per_t) eqn:Et.
  - destruct q_per_t as [| q]; [discriminate |].
    assert (Hq : q <> 0).
    { intros ->. unfold num_truthy in Et. rewrite num_eq_False_zero in Et.
      discriminate. }
    rewrite rates_rescale by (rewrite ?pyround_zero; lra).
    rewrite pyround_zero.
    replace (Rpower (1 + 0) (1 / q) - 1) with 0
      by (replace (1 + 0) with 1 by ring; rewrite Rpower_one; ring).
    rewrite Hb. reflexivity.
  - rewrite Hb. reflexivity.
Qed.

Lemma pypow_one (y : R) : pypow 1 y = Ok 1.
Proof. rewrite pypow_pos by lra. rewrite Rpower_one. reflexivity. Qed.

(** X18: a zero interest rate.  With r = 0 read as an interest rate, [pv]
    and [fv] raise [ZeroDivisionError] whenever the payments are not a
    list (also when there are no payments at all), [solve_q] raises
    [ZeroDivisionError] for every argument, and [solve_t] raises
    [ZeroDivisionError] or, from the logarithm of fv/pv, [ValueError]:
    the level-annuity formulas divide by i or d. *)
Theorem zero_rate_raises (t : pyopt R) (q : pyopt pyq) (a : pyopt R)
    (q_per_t : pyopt R) (annuity_due : bool) (cash : pyopt R)
    (precision : pyopt Z) (h : heap) (t' : R) (a' : pyopt R)
    (sinking_fund : bool) (q' : pyopt R) :
  scalar_q q <> None ->
  pv 0 t PyFalse q a q_per_t annuity_due cash precision h
    = (Raise ZeroDivisionError, h)
  /\ fv 0 t PyFalse q a q_per_t annuity_due cash precision h
     = (Raise ZeroDivisionError, h)
  /\ solve_q 0 t' PyFalse a a' q_per_t annuity_due sinking_fund precision
     = Raise ZeroDivisionError
  /\ (solve_t 0 a PyFalse q' q_per_t a' annuity_due precision
        = Raise ZeroDivisionError
      \/ solve_t 0 a PyFalse q' q_per_t a' annuity_due precision
         = Raise ValueError).
Proof.
  intros Hq.
  destruct (rates_zero_fields q_per_t) as [b [Hb [Hi [Hd Hv]]]].
  assert (Hqs : exists x, (match q with
                           | Given q' =>
                               if q_eq_False q then QNum 0 else q'
                           | PyFalse => QNum 0
                           end) = QNum x).
  { destruct q as [| [x | p]]; [eauto | | contradiction Hq; reflexivity].
    destruct (q_eq_False (Given (QNum x))); eauto. }
  destruct Hqs as [x Hx].
  split; [| split; [| split]].
  - unfold pv. cbn [r_is_or_default tag_truthy].
    rewrite bind_lift_ok, Hb, bind_lift_ok. cbv zeta. rewrite Hx.
    rewrite Hi, Hd, Hv. unfold bind, lift, ret.
    rewrite pypow_one.
    destruct annuity_due; rewrite pydiv_zero; reflexivity.
  - unfold fv. cbn [r_is_or_default tag_truthy].
    rewrite bind_lift_ok, Hb, bind_lift_ok. cbv zeta. rewrite Hx.
    rewrite Hi, Hd. unfold bind, lift, ret.
    replace (1 + 0) with 1 by ring. rewrite pypow_one.
    destruct annuity_due; rewrite pydiv_zero; reflexivity.
  - unfold solve_q. cbn [r_is_or_default tag_truthy rbind].
    rewrite Hb. cbn [rbind]. cbv zeta. rewrite Hi, Hd, Hv.
    replace (1 + 0) with 1 by ring. rewrite !pypow_one.
    assert (Hden : (if annuity_due then 0 else 0) = 0)
      by (destruct annuity_due; reflexivity).
    rewrite Hden.
    destruct (num_eq_False a' && num_eq_False a); cbn [rbind fst snd];
      [destruct sinking_fund; cbn [negb rbind];
       rewrite pydiv_zero; reflexivity |].
    destruct (negb sinking_fund && num_eq_False a' && num_truthy a);
      cbn [rbind fst snd];
      [destruct sinking_fund; cbn [negb rbind];
       rewrite pydiv_zero; reflexivity |].
    destruct (negb sinking_fund && negb (num_eq_False a')
              && negb (num_eq_False a)); cbn [rbind fst snd];
      [destruct sinking_fund; cbn [negb rbind];
       rewrite pydiv_zero; reflexivity |].
    destruct (sinking_fund && negb (num_eq_False a') && num_eq_False a);
      cbn [rbind fst snd];
      destruct sinking_fund; cbn [negb rbind];
      rewrite pydiv_zero; reflexivity.
  - unfold solve_t. cbn [r_is_or_default tag_truthy rbind].
    rewrite Hb. cbn [rbind]. rewrite Hi, Hd.
    replace (1 + 0) with 1 by ring.
    rewrite pylog_ok by lra. cbn [rbind]. rewrite ln_1.
    set (pv' := if num_eq_False a then 1 else num_val a).
    destruct ((num_eq_False q' && num_eq_False a')
              || (if Req_dec_T pv' (num_val a') then true else false));
      [left; cbn [rbind]; rewrite pydiv_zero; reflexivity |].
    destruct (num_eq_False q' && negb (num_eq_False a')).
    { destruct (pydiv (num_val a') pv') as [y | e] eqn:Ey.
      - cbn [rbind]. unfold pylog. destruct (Rlt_dec 0 y).
        + left. cbn [rbind]. rewrite pydiv_zero. reflexivity.
        + right. reflexivity.
      - left. unfold pydiv in Ey.
        destruct (Req_dec_T pv' 0); [| discriminate].
        injection Ey as <-. reflexivity. }
    destruct (negb (num_eq_False q') && num_eq_False a' && negb annuity_due).
    { left. destruct (pydiv (0 * pv') (num_val q')) as [y | e] eqn:Ey.
      - unfold pydiv in Ey.
        destruct (Req_dec_T (num_val q') 0); [discriminate |].
        injection Ey as <-. cbn [rbind].
        replace (1 - 0 * pv' / num_val q') with 1 by (field; assumption).
        rewrite pylog_ok by lra. cbn [rbind]. rewrite pydiv_zero.
        reflexivity.
      - unfold pydiv in Ey.
        destruct (Req_dec_T (num_val q') 0); [| discriminate].
        injection Ey as <-. reflexivity. }
    destruct (negb (num_eq_False q') && num_eq_False a' && annuity_due).
    { left. destruct (pydiv (0 * pv') (num_val q')) as [y | e] eqn:Ey.
      - unfold pydiv in Ey.
        destruct (Req_dec_T (num_val q') 0); [discriminate |].
        injection Ey as <-. cbn [rbind].
        replace (1 - 0 * pv' / num_val q') with 1 by (field; assumption).
        rewrite pylog_ok by lra. cbn [rbind]. rewrite pydiv_zero.
        reflexivity.
      - unfold pydiv in Ey.
        destruct (Req_dec_T (num_val q') 0); [| discriminate].
        injection Ey as <-. reflexivity. }
    left. cbn [rbind]. rewrite pydiv_zero. reflexivity.
Qed.

Lemma zero_rate_raises_witness :
  pv 0 PyFalse PyFalse PyFalse (Given 100) PyFalse false PyFalse PyFalse []
    = (Raise ZeroDivisionError, [])
  /\ fv 0 PyFalse PyFalse PyFalse (Given 100) PyFalse false PyFalse
        PyFalse []
     = (Raise ZeroDivisionError, [])
  /\ solve_q 0 5 PyFalse (Given 100) PyFalse PyFalse false false PyFalse
     = Raise ZeroDivisionError
  /\ (solve_t 0 (Given 100) PyFalse PyFalse PyFalse PyFalse false PyFalse
        = Raise ZeroDivisionError
      \/ solve_t 0 (Given 100) PyFalse PyFalse PyFalse PyFalse false PyFalse
         = Raise ValueError).
Proof.
  apply (zero_rate_raises PyFalse PyFalse (Given 100) PyFalse false PyFalse
           PyFalse [] 5 PyFalse false PyFalse).
  discriminate.
Defined.

(** ** Rounding to a chosen number of places *)

Lemma powerRZ_10_pos (n : Z) : 0 < powerRZ 10 n.
Proof. apply powerRZ_lt. lra. Qed.

Lemma pyround_to_err (x : R) (n : Z) :
  Rabs (pyround_to x n - x) <= / (2 * powerRZ 10 n).
Proof.
  unfold pyround_to.
  pose proof (powerRZ_10_pos n) as Hp.
  pose proof (round_half_even_err (x * powerRZ 10 n)) as He.
  set (k := IZR (round_half_even (x * powerRZ 10 n))) in *.
  set (m := powerRZ 10 n) in *.
  replace (k / m - x) with ((k - x * m) * / m) by (field; lra).
  rewrite Rabs_mult, (Rabs_pos_eq (/ m)).
  - replace (/ (2 * m)) with (1 / 2 * / m) by (field; lra).
    apply Rmult_le_compat_r; [| exact He].
    apply Rlt_le, Rinv_0_lt_compat, Hp.
  - apply Rlt_le, Rinv_0_lt_compat, Hp.
Qed.

Lemma pyround_to_zero (n : Z) : pyround_to 0 n = 0.
Proof.
  unfold pyround_to. rewrite Rmult_0_l.
  rewrite (round_half_even_IZR 0). unfold Rdiv. ring.
Qed.

Lemma powerRZ_10_IZR (n : Z) :
  (0 <= n)%Z -> powerRZ 10 n = IZR (10 ^ n).
Proof.
  intros Hn. rewrite <- (Z2Nat.id n Hn) at 1.
  rewrite <- pow_powerRZ, pow_IZR, Z2Nat.id by exact Hn. reflexivity.
Qed.

(** An integer is its own rounding to any non-negative number of
    places. *)
Lemma pyround_to_int (k n : Z) :
  (0 <= n)%Z -> pyround_to (IZR k) n = IZR k.
Proof.
  intros Hn. unfold pyround_to.
  pose proof (powerRZ_10_pos n) as Hp.
  rewrite (powerRZ_10_IZR n Hn) in *.
  rewrite <- mult_IZR, round_half_even_IZR, mult_IZR.
  field. lra.
Qed.

(** ** [pv] of a single amount *)

(** X19: [pv] without payments.  With the dictionary b of the rate, v > 0
    and the divisor (i, or d for an annuity due) not 0, the result is
    fv * v^t + cash_today, rounded to the asked number of places; when fv
    is omitted too it is the discount factor v^t (plus cash_today) at 16
    places, whatever precision was asked.  t is the argument t (1 when
    omitted), multiplied by q_per_t when that is given. *)
Theorem pv_single_amount (r : R) (t : pyopt R) (r_is : pyopt tagval)
    (q : pyopt pyq) (fv : pyopt R) (q_per_t : pyopt R) (annuity_due : bool)
    (cash_today : pyopt R) (precision : pyopt Z) (h : heap)
    (k : string) (b : bundle) :
  r_is_or_default r_is = Ok k ->
  rates_per_period r k q_per_t = Ok b ->
  q_eq_False q = true ->
  0 < b_v b ->
  (if annuity_due then b_d b else b_i b) <> 0 ->
  pv r t r_is q fv q_per_t annuity_due cash_today precision h =
  (Ok (pyround_to
         ((if num_eq_False fv then 1 else num_val fv)
          * Rpower (b_v b)
                   (if num_truthy q_per_t
                    then (if num_eq_False t then 1 else num_val t)
                         * num_val q_per_t
                    else (if num_eq_False t then 1 else num_val t))
          + num_val cash_today)
         (if num_eq_False fv then 16%Z else precision_or 2 precision)), h).
Proof.
  intros Hk Hb Hq Hv Hden.
  unfold pv. rewrite Hk, bind_lift_ok, Hb, bind_lift_ok. cbv zeta.
  rewrite Hq, andb_true_r.
  assert (Hq0 : match q with
                | Given _ => QNum 0
                | PyFalse => QNum 0
                end = QNum 0) by (destruct q; reflexivity).
  rewrite Hq0. unfold bind, lift, ret.
  rewrite pypow_pos by exact Hv.
  assert (Hdiv : forall p : R,
             (if annuity_due
              then pydiv (0 * (1 - p)) (b_d b)
              else pydiv (0 * (1 - p)) (b_i b)) = Ok 0).
  { intros p. destruct annuity_due; rewrite pydiv_ok by exact Hden;
      f_equal; field; exact Hden. }
  rewrite Hdiv. cbn [fst snd]. rewrite pypow_pos by exact Hv.
  destruct (num_eq_False fv); do 3 f_equal; ring.
Qed.

Lemma pv_single_amount_witness :
  let b := roundValues
             (mkBundle 1 (1 / (1 + 1)) (1 - 1 / (1 + 1)) (exp 1 - 1)) in
  pv 1 (Given 3) PyFalse PyFalse (Given 100) PyFalse false PyFalse PyFalse
     [] =
  (Ok (pyround_to
         ((if num_eq_False (Given 100) then 1 else num_val (Given 100))
          * Rpower (b_v b)
                   (if num_truthy PyFalse
                    then (if num_eq_False (Given 3) then 1
                          else num_val (Given 3)) * num_val PyFalse
                    else (if num_eq_False (Given 3) then 1
                          else num_val (Given 3)))
          + num_val PyFalse)
         (if num_eq_False (Given 100) then 16%Z
          else precision_or 2 PyFalse)), []).
Proof.
  apply (pv_single_amount 1 (Given 3) PyFalse PyFalse (Given 100) PyFalse
           false PyFalse PyFalse [] "i").
  - reflexivity.
  - apply rates_per_period_plain. lra.
  - reflexivity.
  - cbn [b_v roundValues].
    rewrite (pyround_decimal (1 - 1 / (1 + 1)) 5000000000)
      by (rewrite pow10_10; lra). lra.
  - cbn [b_i roundValues].
    rewrite (pyround_decimal 1 10000000000) by (rewrite pow10_10; lra).
    lra.
Defined.

(** ** [solve_t] *)

Lemma solve_t_run (r : R) (pv : pyopt R) (r_is : pyopt tagval)
    (q : pyopt R) (q_per_t : pyopt R) (fv : pyopt R) (annuity_due : bool)
    (precision : pyopt Z) (k : string) (b : bundle) :
  r_is_or_default r_is = Ok k ->
  rates_per_period r k q_per_t = Ok b ->
  0 < 1 + b_i b ->
  solve_t r pv r_is q q_per_t fv annuity_due precision =
  (let denominator := ln (1 + b_i b) in
   let pv := if num_eq_False pv then 1 else num_val pv in
   numerator <-
     (if (num_eq_False q && num_eq_False fv)
         || (if Req_dec_T pv (num_val fv) then true else false)
      then Ok denominator
      else if num_eq_False q && negb (num_eq_False fv)
      then x <- pydiv (num_val fv) pv ;; pylog x
      else if negb (num_eq_False q) && num_eq_False fv && negb annuity_due
      then
        x <- pydiv (b_i b * pv) (num_val q) ;;
        l <- pylog (1 - x) ;;
        Ok (- l)
      else if negb (num_eq_False q) && num_eq_False fv && annuity_due
      then
        x <- pydiv (b_d b * pv) (num_val q) ;;
        l <- pylog (1 - x) ;;
        Ok (- l)
      else Ok 0) ;;
   t <- pydiv numerator denominator ;;
   Ok (pyround_to t (precision_or 10 precision)))%result.
Proof.
  intros Hk Hb Hg. unfold solve_t. rewrite Hk. cbn [rbind]. rewrite Hb.
  cbn [rbind]. rewrite pylog_ok by exact Hg. reflexivity.
Qed.

(** X20: [solve_t] undoes compound growth.  With the dictionary b of the
    rate, 1 + i > 0 and i <> 0: for pv = P > 0 and fv = P * (1+i)^t with
    t <> 0, and no payment, [solve_t] returns t rounded (to 10 places by
    default). *)
Theorem solve_t_inverts_growth (r : R) (P t : R) (r_is : pyopt tagval)
    (q_per_t : pyopt R) (annuity_due : bool) (precision : pyopt Z)
    (k : string) (b : bundle) :
  r_is_or_default r_is = Ok k ->
  rates_per_period r k q_per_t = Ok b ->
  0 < 1 + b_i b -> b_i b <> 0 ->
  0 < P -> t <> 0 ->
  solve_t r (Given P) r_is PyFalse q_per_t
          (Given (P * Rpower (1 + b_i b) t)) annuity_due precision =
  Ok (pyround_to t (precision_or 10 precision)).
Proof.
  intros Hk Hb Hg Hi HP Ht.
  rewrite (solve_t_run _ _ _ _ _ _ _ _ k b Hk Hb Hg). cbv zeta.
  set (g := 1 + b_i b) in *.
  assert (Hln : ln g <> 0).
  { apply ln_neq_0; [| exact Hg]. intros E. apply Hi. unfold g in E. lra. }
  assert (Hpow : 0 < Rpower g t) by (unfold Rpower; apply exp_pos).
  assert (Hpow1 : Rpower g t <> 1).
  { intros E. unfold Rpower in E. rewrite <- exp_0 in E.
    apply exp_inv in E. apply Rmult_integral in E. tauto. }
  rewrite (num_eq_False_nonzero P) by lra.
  rewrite (num_eq_False_nonzero (P * Rpower g t)) by nra.
  cbn [num_eq_False num_val andb negb orb].
  destruct (Req_dec_T P (P * Rpower g t)) as [E | _]; [exfalso; nra |].
  rewrite pydiv_ok by lra. cbn [rbind].
  replace (P * Rpower g t / P) with (Rpower g t) by (field; lra).
  rewrite pylog_ok by exact Hpow. cbn [rbind].
  rewrite pydiv_ok by exact Hln. cbn [rbind].
  unfold Rpower. rewrite ln_exp.
  replace (t * ln g / ln g) with t by (field; exact Hln).
  reflexivity.
Qed.

Lemma rates_one_fields :
  let b := roundValues
             (mkBundle 1 (1 / (1 + 1)) (1 - 1 / (1 + 1)) (exp 1 - 1)) in
  rates_per_period 1 "i" PyFalse = Ok b
  /\ b_i b = 1 /\ b_d b = 1 / 2 /\ b_v b = 1 / 2.
Proof.
  cbv zeta. split; [apply rates_per_period_plain; lra |].
  cbn [b_i b_d b_v roundValues].
  rewrite (pyround_decimal 1 10000000000) by (rewrite pow10_10; lra).
  rewrite (pyround_decimal (1 / (1 + 1)) 5000000000)
    by (rewrite pow10_10; lra).
  rewrite (pyround_decimal (1 - 1 / (1 + 1)) 5000000000)
    by (rewrite pow10_10; lra).
  repeat split; lra.
Qed.

Lemma solve_t_inverts_growth_witness :
  let b := roundValues
             (mkBundle 1 (1 / (1 + 1)) (1 - 1 / (1 + 1)) (exp 1 - 1)) in
  solve_t 1 (Given 100) PyFalse PyFalse PyFalse
          (Given (100 * Rpower (1 + b_i b) 3)) false PyFalse =
  Ok (pyround_to 3 (precision_or 10 PyFalse)).
Proof.
  destruct rates_one_fields as [Hb [Hi _]].
  apply (solve_t_inverts_growth 1 100 3 PyFalse PyFalse false PyFalse "i").
  - reflexivity.
  - exact Hb.
  - rewrite Hi. lra.
  - rewrite Hi. lra.
  - lra.
  - lra.
Defined.

(** X21: the special cases of [solve_t], where 1 + i > 0, i <> 0 and the
    precision is not negative.  With neither payment nor fv, and also
    whenever pv (1 when omitted) equals fv, the answer is 1; with payment
    and fv both given and pv different from fv, the answer is 0, as the
    docstring announces for "all three values at once". *)
Theorem solve_t_special_cases (r : R) (pv : pyopt R) (r_is : pyopt tagval)
    (q : pyopt R) (q_per_t : pyopt R) (fv : pyopt R) (annuity_due : bool)
    (precision : pyopt Z) (k : string) (b : bundle) :
  r_is_or_default r_is = Ok k ->
  rates_per_period r k q_per_t = Ok b ->
  0 < 1 + b_i b -> b_i b <> 0 ->
  (0 <= precision_or 10 precision)%Z ->
  (num_eq_False q = true -> num_eq_False fv = true ->
   solve_t r pv r_is q q_per_t fv annuity_due precision = Ok 1)
  /\ ((if num_eq_False pv then 1 else num_val pv) = num_val fv ->
      solve_t r pv r_is q q_per_t fv annuity_due precision = Ok 1)
  /\ (num_eq_False q = false -> num_eq_False fv = false ->
      (if num_eq_False pv then 1 else num_val pv) <> num_val fv ->
      solve_t r pv r_is q q_per_t fv annuity_due precision = Ok 0).
Proof.
  intros Hk Hb Hg Hi Hprec.
  assert (Hln : ln (1 + b_i b) <> 0).
  { apply ln_neq_0; [| exact Hg]. intros E. apply Hi. lra. }
  assert (Hone : (t <- pydiv (ln (1 + b_i b)) (ln (1 + b_i b)) ;;
                  Ok (pyround_to t (precision_or 10 precision)))%result
                 = Ok 1).
  { rewrite pydiv_ok by exact Hln. cbn [rbind].
    replace (ln (1 + b_i b) / ln (1 + b_i b)) with (IZR 1)
      by (field; exact Hln).
    rewrite pyround_to_int by exact Hprec. reflexivity. }
  rewrite (solve_t_run _ _ _ _ _ _ _ _ k b Hk Hb Hg). cbv zeta.
  split; [| split].
  - intros Hq Hfv. rewrite Hq, Hfv. cbn [andb orb rbind]. exact Hone.
  - intros E.
    destruct (Req_dec_T (if num_eq_False pv then 1 else num_val pv)
                        (num_val fv)); [| contradiction].
    rewrite orb_true_r. cbn [rbind]. exact Hone.
  - intros Hq Hfv Hne. rewrite Hq, Hfv.
    destruct (Req_dec_T (if num_eq_False pv then 1 else num_val pv)
                        (num_val fv)); [contradiction |].
    cbn [andb orb negb rbind].
    rewrite pydiv_ok by exact Hln. cbn [rbind].
    replace (0 / ln (1 + b_i b)) with 0 by (field; exact Hln).
    rewrite pyround_to_zero. reflexivity.
Qed.

Lemma solve_t_special_cases_witness :
  (num_eq_False (Given 5) = true -> num_eq_False (Given 200) = true ->
   solve_t 1 (Given 100) PyFalse (Given 5) PyFalse (Given 200) false
           PyFalse = Ok 1)
  /\ ((if num_eq_False (Given 100) then 1 else num_val (Given 100))
      = num_val (Given 200) ->
      solve_t 1 (Given 100) PyFalse (Given 5) PyFalse (Given 200) false
              PyFalse = Ok 1)
  /\ (num_eq_False (Given 5) = false -> num_eq_False (Given 200) = false ->
      (if num_eq_False (Given 100) then 1 else num_val (Given 100))
      <> num_val (Given 200) ->
      solve_t 1 (Given 100) PyFalse (Given 5) PyFalse (Given 200) false
              PyFalse = Ok 0).
Proof.
  destruct rates_one_fields as [Hb [Hi _]].
  apply (solve_t_special_cases 1 (Given 100) PyFalse (Given 5) PyFalse
           (Given 200) false PyFalse "i" _ eq_refl Hb).
  - rewrite Hi. lra.
  - rewrite Hi. lra.
  - cbn. lia.
Defined.

(** ** [solve_q] and [pv] *)

Lemma pyround_to_2_err (x : R) : Rabs (pyround_to x 2 - x) <= / 200.
Proof.
  pose proof (pyround_to_err x 2) as H.
  replace (2 * powerRZ 10 2) with 200 in H by (simpl; ring). exact H.
Qed.

(** X22: [solve_q] and [pv] are inverse up to the rounding to cents.
    With the dictionary b of the rate, v > 0, a divisor (i, or d for an
    annuity due) that is not 0 and an annuity factor A = (1 - v^t) / i
    that is not 0: the level payment [solve_q] finds for a present value
    P is P / A rounded to 2 places, and, when that payment is not 0, [pv]
    of it is within (|A| + 1) / 200 of P. *)
Theorem solve_q_then_pv (r P t : R) (r_is : pyopt tagval)
    (q_per_t : pyopt R) (annuity_due : bool) (h : heap)
    (k : string) (b : bundle) :
  r_is_or_default r_is = Ok k ->
  rates_per_period r k q_per_t = Ok b ->
  0 < b_v b ->
  (if annuity_due then b_d b else b_i b) <> 0 ->
  P <> 0 -> t <> 0 ->
  (1 - Rpower (b_v b) (if num_truthy q_per_t then t * num_val q_per_t
                       else t))
  / (if annuity_due then b_d b else b_i b) <> 0 ->
  let A := (1 - Rpower (b_v b) (if num_truthy q_per_t
                                then t * num_val q_per_t else t))
           / (if annuity_due then b_d b else b_i b) in
  let Q := pyround_to (P / A) 2 in
  solve_q r t r_is (Given P) PyFalse q_per_t annuity_due false PyFalse
    = Ok Q
  /\ (Q <> 0 ->
      exists P',
        pv r (Given t) r_is (Given (QNum Q)) PyFalse q_per_t annuity_due
           PyFalse PyFalse h = (Ok P', h)
        /\ Rabs (P' - P) <= (Rabs A + 1) / 200).
Proof.
  intros Hk Hb Hv Hden HP Ht HA A Q.
  set (t' := if num_truthy q_per_t then t * num_val q_per_t else t) in *.
  set (den := if annuity_due then b_d b else b_i b) in *.
  assert (HPf : num_eq_False (Given P) = false)
    by (apply num_eq_False_nonzero; exact HP).
  split.
  - unfold solve_q. rewrite Hk. cbn [rbind]. rewrite Hb. cbn [rbind].
    cbv zeta. fold t' den. unfold num_truthy. rewrite HPf.
    cbn [num_eq_False andb negb rbind fst snd num_val].
    rewrite pypow_pos by exact Hv. cbn [rbind].
    rewrite pydiv_ok by exact Hden. cbn [rbind].
    rewrite pydiv_ok by exact HA. reflexivity.
  - intros HQ.
    assert (HQf : q_eq_False (Given (QNum Q)) = false).
    { cbn. destruct (Req_dec_T Q 0); [contradiction | reflexivity]. }
    assert (Htf : num_eq_False (Given t) = false)
      by (apply num_eq_False_nonzero; exact Ht).
    exists (pyround_to (Q * (1 - Rpower (b_v b) t') / den
                        + 0 * Rpower (b_v b) t' + 0) 2).
    split.
    + unfold pv. rewrite Hk, bind_lift_ok, Hb, bind_lift_ok. cbv zeta.
      rewrite HQf, Htf. cbn [num_val andb]. rewrite andb_false_r.
      fold t'. unfold bind, lift, ret.
      rewrite pypow_pos by exact Hv.
      assert (Hdiv : (if annuity_due
                      then pydiv (Q * (1 - Rpower (b_v b) t')) (b_d b)
                      else pydiv (Q * (1 - Rpower (b_v b) t')) (b_i b))
                     = Ok (Q * (1 - Rpower (b_v b) t') / den)).
      { unfold den in *. destruct annuity_due;
          rewrite pydiv_ok by exact Hden; reflexivity. }
      rewrite Hdiv. cbn [fst snd]. rewrite pypow_pos by exact Hv.
      reflexivity.
    + pose proof (pyround_to_2_err
                    (Q * (1 - Rpower (b_v b) t') / den
                     + 0 * Rpower (b_v b) t' + 0)) as E1.
      pose proof (pyround_to_2_err (P / A)) as E2. fold Q in E2.
      assert (HQA : Q * (1 - Rpower (b_v b) t') / den
                    + 0 * Rpower (b_v b) t' + 0 = Q * A)
        by (unfold A; field; exact Hden).
      rewrite HQA in *.
      assert (Hdiff : Q * A - P = A * (Q - P / A)) by (field; exact HA).
      assert (E3 : Rabs (Q * A - P) <= Rabs A * / 200).
      { rewrite Hdiff, Rabs_mult.
        apply Rmult_le_compat_l; [apply Rabs_pos | exact E2]. }
      pose proof (Rabs_triang
                    (pyround_to (Q * A) 2 - Q * A) (Q * A - P)) as Htri.
      replace (pyround_to (Q * A) 2 - Q * A + (Q * A - P))
        with (pyround_to (Q * A) 2 - P) in Htri by ring.
      unfold Rdiv. lra.
Qed.

Lemma solve_q_then_pv_witness :
  let b := roundValues
             (mkBundle 1 (1 / (1 + 1)) (1 - 1 / (1 + 1)) (exp 1 - 1)) in
  let A := (1 - Rpower (b_v b) (if num_truthy PyFalse
                                then 1 * num_val PyFalse else 1))
           / (if false then b_d b else b_i b) in
  let Q := pyround_to (100 / A) 2 in
  solve_q 1 1 PyFalse (Given 100) PyFalse PyFalse false false PyFalse
    = Ok Q
  /\ (Q <> 0 ->
      exists P',
        pv 1 (Given 1) PyFalse (Given (QNum Q)) PyFalse PyFalse false
           PyFalse PyFalse [] = (Ok P', [])
        /\ Rabs (P' - 100) <= (Rabs A + 1) / 200).
Proof.
  destruct rates_one_fields as [Hb [Hi [Hd Hv]]].
  apply (solve_q_then_pv 1 100 1 PyFalse PyFalse false [] "i" _ eq_refl Hb).
  - rewrite Hv. lra.
  - rewrite Hi. lra.
  - lra.
  - lra.
  - cbn [num_truthy num_eq_False negb]. rewrite Hv, Hi.
    rewrite Rpower_1 by lra. lra.
Defined.

(** ** The callers and [rates] *)

(** X23: [pv], [fv], [solve_t] and [solve_q] take r_is through [get_rType]
    and [rates] takes the result through [get_rType] again; the second
    pass changes nothing, so the dictionary the callers work with is the
    one [rates] returns for the caller's own r_is and q_per_t. *)
Theorem callers_use_rates (r : R) (tag : tagval) (q_per_t : pyopt R)
    (k : string) :
  tag_truthy (Given tag) = true ->
  r_is_or_default (Given tag) = Ok k ->
  rates_per_period r k q_per_t =
  (a <- rates r (Given tag) PyFalse
              (if num_truthy q_per_t then q_per_t else PyFalse) ;;
   as_dict a)%result.
Proof.
  intros Ht Hk. unfold r_is_or_default in Hk. rewrite Ht in Hk.
  destruct (truthy_tag_kind tag Ht) as [k' [Hk' Hne]].
  rewrite Hk' in Hk. injection Hk as <-.
  pose proof (get_rType_fixed _ _ Hk') as Hfix.
  assert (Hsame : forall q,
             rates r (Given (TagStr k')) PyFalse q =
             rates r (Given tag) PyFalse q).
  { intros q. unfold rates, rates_body. rewrite Ht.
    cbn [tag_truthy pystr].
    destruct (k' =? "")%string eqn:E;
      [apply String.eqb_eq in E; contradiction |].
    cbn [negb]. rewrite Hfix, Hk'. reflexivity. }
  unfold rates_per_period. rewrite !Hsame.
  destruct (num_truthy q_per_t); reflexivity.
Qed.

Lemma callers_use_rates_witness :
  rates_per_period (1 / 10) "d" PyFalse =
  (a <- rates (1 / 10) (Given (TagStr "Discount")) PyFalse
              (if num_truthy PyFalse then PyFalse else PyFalse) ;;
   as_dict a)%result.
Proof.
  apply (callers_use_rates (1 / 10) (TagStr "Discount") PyFalse "d");
    reflexivity.
Defined.

(** ** [solve_r] on an empty list *)

(** X24: [solve_r] on an empty list of payments, with neither pv nor fv,
    never returns: the exception of the root finder is passed on, and
    when the root finder returns, the maximum of the empty list raises
    [ValueError].  The heap is as before. *)
Theorem solve_r_empty_list (polyroots : list R -> result (list pyroot))
    (pv : pyopt R) (p0 : loc) (t : pyopt Z) (fv : pyopt R)
    (annuity_due : bool) (get : pyopt tagval) (q_per_t : pyopt R)
    (h : heap) :
  nth p0 h [] = [] ->
  num_eq_False pv = true ->
  num_eq_False fv = true ->
  solve_r polyroots pv (Given (QList p0)) t fv annuity_due get q_per_t h =
  (match polyroots [] with
   | Ok _ => Raise ValueError
   | Raise e => Raise e
   end, h).
Proof.
  intros Hl Hpv Hfv.
  assert (Hmul : forall n, list_mul [] n = []).
  { intros n. unfold list_mul. induction (Z.to_nat n); [reflexivity |].
    simpl. assumption. }
  assert (Hpay : payments pv (QList p0) t fv annuity_due h = (Ok p0, h)).
  { unfold payments. rewrite Hpv, Hfv. cbn [negb andb].
    destruct (int_eq_False t); cbn [negb];
      unfold bind, ret, read, write; [reflexivity |].
    rewrite Hl, Hmul. rewrite <- Hl at 1. rewrite list_set_same.
    reflexivity. }
  assert (Hflows : rate_of_flows polyroots [] =
                   match polyroots [] with
                   | Ok _ => Raise ValueError
                   | Raise e => Raise e
                   end).
  { unfold rate_of_flows.
    destruct (polyroots []) as [rs | e]; [| reflexivity].
    cbn [rbind]. cbv zeta.
    destruct (real_roots rs); reflexivity. }
  assert (Hrate : solve_r_rate polyroots pv (Given (QList p0)) t fv
                    annuity_due h = (rate_of_flows polyroots [], h)).
  { unfold solve_r_rate. cbn [q_eq_False].
    rewrite (bind_ok _ _ _ _ _ Hpay).
    rewrite root_rate_is_rate_of_flows, Hl. reflexivity. }
  unfold solve_r, bind. rewrite Hrate, Hflows.
  destruct (polyroots []); reflexivity.
Qed.

Lemma solve_r_empty_list_witness :
  solve_r polyroots_linear PyFalse (Given (QList 0%nat)) (Given 3%Z)
          PyFalse false PyFalse PyFalse [[]] =
  (match polyroots_linear [] with
   | Ok _ => Raise ValueError
   | Raise e => Raise e
   end, [[]]).
Proof.
  apply (solve_r_empty_list polyroots_linear PyFalse 0%nat (Given 3%Z)
           PyFalse false PyFalse PyFalse [[]]); reflexivity.
Defined.
